(** * ClozerAI desktop: audio-tap lifecycle, transcript merge, session
      renewal and chat orchestration

    A shallow embedding of
    - [src/main/main.ts]: the [ipc-start-audio-tap] and
      [ipc-stop-audio-tap] handlers around the process-wide
      [audioTapInstance] slot;
    - the [useSessionTranscription] hook: transcript callbacks,
      auto-extension effects, [prepareMessagesForNewMessage],
      [handleGenerateResponse], [handleGenerateResponseWithScreenshot];
    - [src/renderer/lib/useCallSession.ts]: the [CallSession] record.

    Handlers are written in a small state-and-exception monad in which a
    [throw] keeps every assignment made before it, as in JavaScript. Each
    handler invocation runs to completion: an [await] is the call followed
    by its settlement, and overlapping invocations are not modelled. *)

From Stdlib Require Import List String Ascii ZArith Bool Arith Lia.
From Stdlib Require DecimalString.
Import ListNotations.
Local Open Scope string_scope.

(** ** JavaScript values *)

(** [new Error(message)]. *)
Record JsError : Type := Error { message : string }.

(** Truthiness of a string: only [''] is falsy. *)
Definition truthy (s : string) : bool :=
  match s with
  | EmptyString => false
  | String _ _ => true
  end.

(** Truthiness of a [string | null] or [string | undefined]. *)
Definition truthy_opt (o : option string) : bool :=
  match o with
  | Some s => truthy s
  | None => false
  end.

(** Truthiness of a [number | null]: [null] and [0] are falsy. *)
Definition truthy_num (o : option Z) : bool :=
  match o with
  | Some z => negb (z =? 0)%Z
  | None => false
  end.

(** [o && o < bound] and [o && o > bound] on a [number | null]. *)
Definition num_below (o : option Z) (bound : Z) : bool :=
  match o with
  | Some z => negb (z =? 0)%Z && (z <? bound)%Z
  | None => false
  end.

Definition num_above (o : option Z) (bound : Z) : bool :=
  match o with
  | Some z => negb (z =? 0)%Z && (z >? bound)%Z
  | None => false
  end.

(** ** Handlers: state that survives a throw *)

Section HandlerMonad.
Context {St : Type}.

Definition M (A : Type) : Type := St -> (JsError + A) * St.

Definition ret {A} (a : A) : M A := fun s => (inr a, s).

Definition bind {A B} (m : M A) (k : A -> M B) : M B :=
  fun s =>
    match m s with
    | (inr a, s') => k a s'
    | (inl e, s') => (inl e, s')
    end.

Definition throw {A} (e : JsError) : M A := fun s => (inl e, s).

(** [try { body } catch (error) { handler }] *)
Definition try_catch {A} (body : M A) (handler : JsError -> M A) : M A :=
  fun s =>
    match body s with
    | (inr a, s') => (inr a, s')
    | (inl e, s') => handler e s'
    end.

Definition get : M St := fun s => (inr s, s).
Definition modify (f : St -> St) : M unit := fun s => (inr tt, f s).
End HandlerMonad.

Declare Scope handler_scope.
Delimit Scope handler_scope with handler.
Notation "x <- m ;; k" := (bind m (fun x => k))
  (at level 61, m at next level, right associativity) : handler_scope.
Notation "m ;; k" := (bind m (fun _ => k))
  (at level 61, right associativity) : handler_scope.

(** ** Running states of an adapter *)

(** Modelled from the spec: the [Status] enum of [useAudioTap], a file
    of the renderer that is absent; the handlers use [Status.RECORDING]
    and [Status.IDLE], the other running states are those the data model of
    the adapter lists. *)
Inductive Status : Type := IDLE | STARTING | RECORDING | STOPPING | ERROR.

(** ** The main process: [src/main/main.ts] *)

Module Main.

(** An [AudioTapResult] object, known by its identity. *)
Definition Handle : Type := nat.

(** The data of [audioTapConfig]; its three callbacks only forward to
    the renderer window and touch no state of the main process. *)
Record AudioTapConfig : Type := {
  speechmaticsApiKey : string;
  language : string
}.

Inductive Impl : Type := Mac | Win.

(** What the host gives: [process.platform], whether
    [startAudioTapMac] / [startAudioTapWin] rejects on its [n]-th call
    ([None]: it resolves with a new [AudioTapResult]), and whether
    [cleanup()] of a given instance rejects. *)
Record Host : Type := {
  platform : string;
  start_rejects : Impl -> nat -> AudioTapConfig -> option JsError;
  cleanup_rejects : Handle -> option JsError
}.

(** What can be observed of a run, in the order it happens. *)
Inductive Event : Type :=
| ConsoleLog (msg : string) (arg : option JsError)
| ConsoleError (msg : string) (error : JsError)
| CleanupCalled (h : Handle)
| CleanupSettled (h : Handle) (outcome : option JsError)
| StartCalled (impl : Impl) (cfg : AudioTapConfig)
| StartSettled (impl : Impl) (outcome : JsError + Handle).

(** The module-level state: the slot [audioTapInstance], the number of
    native starts so far (it names the next instance) and the events. *)
Record World : Type := {
  audioTapInstance : option Handle;
  starts : nat;
  trace : list Event
}.

Definition init : World :=
  {| audioTapInstance := None; starts := 0; trace := [] |}.

Definition emit (e : Event) : M unit :=
  modify (fun w => {| audioTapInstance := audioTapInstance w;
                      starts := starts w;
                      trace := trace w ++ [e] |}).

Definition set_audioTapInstance (o : option Handle) : M unit :=
  modify (fun w => {| audioTapInstance := o;
                      starts := starts w;
                      trace := trace w |}).

Definition console_log (msg : string) : M unit := emit (ConsoleLog msg None).

(** Requests reaching the two handlers, served one after the other. *)
Inductive Request : Type :=
| RequestStart (cfg : AudioTapConfig)
| RequestStop.

Section WithHost.
Variable host : Host.

Definition isWindows : bool := String.eqb (platform host) "win32".

(** [await instance.cleanup()] *)
Definition await_cleanup (h : Handle) : M unit :=
  (emit (CleanupCalled h) ;;
   emit (CleanupSettled h (cleanup_rejects host h)) ;;
   match cleanup_rejects host h with
   | Some e => throw e
   | None => ret tt
   end)%handler.

(** [await startAudioTapMac(cfg)] and [await startAudioTapWin(cfg)] *)
Definition await_start (impl : Impl) (cfg : AudioTapConfig) : M Handle :=
  (emit (StartCalled impl cfg) ;;
   w <- get ;;
   let n := starts w in
   modify (fun w => {| audioTapInstance := audioTapInstance w;
                       starts := S n;
                       trace := trace w |}) ;;
   match start_rejects host impl n cfg with
   | Some e => emit (StartSettled impl (inl e)) ;; throw e
   | None => emit (StartSettled impl (inr n)) ;; ret n
   end)%handler.

Definition unsupported_platform : JsError :=
  Error ("Unsupported platform: " ++ platform host ++
         ". ClozerAI Desktop only supports macOS and Windows.").

(** [ipcMain.handle('ipc-start-audio-tap', ...)] *)
Definition ipc_start_audio_tap (cfg : AudioTapConfig) : M Status :=
  (w <- get ;;
   match audioTapInstance w with
   | Some instance =>
       console_log
         "Cleaning up existing audio tap instance before starting new one" ;;
       try_catch
         (await_cleanup instance ;;
          console_log "Existing audio tap cleanup completed")
         (fun error =>
            emit (ConsoleError "Error during audio tap cleanup:" error)) ;;
       set_audioTapInstance None
   | None => ret tt
   end ;;
   try_catch
     ((if String.eqb (platform host) "darwin" then
         h <- await_start Mac cfg ;; set_audioTapInstance (Some h)
       else if isWindows then
         h <- await_start Win cfg ;; set_audioTapInstance (Some h)
       else throw unsupported_platform) ;;
      ret RECORDING)
     (fun error =>
        emit (ConsoleLog "Error starting audio tap" (Some error)) ;;
        throw error))%handler.

(** [ipcMain.handle('ipc-stop-audio-tap', ...)] *)
Definition ipc_stop_audio_tap : M Status :=
  (w <- get ;;
   match audioTapInstance w with
   | Some instance =>
       try_catch
         (console_log "Stopping audio tap..." ;;
          await_cleanup instance ;;
          console_log "Audio tap stopped successfully")
         (fun error =>
            emit (ConsoleError "Error stopping audio tap:" error)) ;;
       set_audioTapInstance None
   | None => ret tt
   end ;;
   ret IDLE)%handler.

Definition serve1 (r : Request) : M Status :=
  match r with
  | RequestStart cfg => ipc_start_audio_tap cfg
  | RequestStop => ipc_stop_audio_tap
  end.

(** Requests served one after the other, each handler run to its end
    before the next begins. Electron does not queue invocations: a handler
    that waits at an await lets the next one in; such runs are those of
    [Overlap.run_schedule]. *)
Fixpoint serve (rs : list Request) (w : World) : World :=
  match rs with
  | [] => w
  | r :: rs' => serve rs' (snd (serve1 r w))
  end.
End WithHost.

(** The instances that are live after a run: an instance is live from
    the settlement of the start that returned it until the settlement of
    its [cleanup()], whatever that settlement is. *)
Definition live_step (l : list Handle) (e : Event) : list Handle :=
  match e with
  | StartSettled _ (inr h) => l ++ [h]
  | CleanupSettled h _ => remove Nat.eq_dec h l
  | _ => l
  end.

Definition live (tr : list Event) : list Handle := fold_left live_step tr [].

Definition is_cleanup_call (e : Event) : bool :=
  match e with CleanupCalled _ => true | _ => false end.

Definition is_start_call (e : Event) : bool :=
  match e with StartCalled _ _ => true | _ => false end.

Definition is_start_settled (e : Event) : bool :=
  match e with StartSettled _ _ => true | _ => false end.

(** The events a handler added to the trace [before]. *)
Definition added (before after : list Event) : list Event :=
  skipn (List.length before) after.

(** [at_most_one_from l tr]: with [l] live, at most one instance is live
    after each event of [tr]. *)
Fixpoint at_most_one_from (l : list Handle) (tr : list Event) : Prop :=
  match tr with
  | [] => True
  | e :: tr' =>
      List.length (live_step l e) <= 1 /\ at_most_one_from (live_step l e) tr'
  end.

(** The platform dispatch of [ipc-start-audio-tap], read off its [if]. *)
Definition native_impl (host : Host) : option Impl :=
  if String.eqb (platform host) "darwin" then Some Mac
  else if isWindows host then Some Win
  else None.

(** What the slot holds, as a list. *)
Definition held (w : World) : list Handle :=
  match audioTapInstance w with
  | Some h => [h]
  | None => []
  end.

(** The slot names exactly the live instance, at every instant so far. *)
Definition slot_is_live (w : World) : Prop :=
  live (trace w) = held w /\
  forall k, List.length (live (firstn k (trace w))) <= 1.

(** The events of awaiting [cleanup()] inside a [try] whose [catch] logs
    under [label]: the call, its settlement, and the line logged after. *)
Definition cleanup_events (host : Host) (h : Handle) (done label : string)
    : list Event :=
  [CleanupCalled h; CleanupSettled h (cleanup_rejects host h);
   match cleanup_rejects host h with
   | Some e => ConsoleError label e
   | None => ConsoleLog done None
   end].

End Main.

(** ** The call session: [src/renderer/lib/useCallSession.ts] *)

Module CallSession.

(** The [CallSession] type; a [Date] is its time in milliseconds. *)
Record t : Type := {
  userId : option string;
  id : string;
  company : string;
  language : string;
  jobDescription : string;
  shortJobDescription : string;
  extraContext : string;
  createdAt : Z;
  activatedAt : option Z;
  endsAt : option Z;
  trial : bool;
  resumeId : option string;
  speechmaticsApiKey : option string;
  simpleLanguage : bool;
  extended : Z;
  saveTranscription : bool;
  loadingSummary : bool;
  errorSummary : option string;
  deleted : bool;
  workspaceId : option string;
  expired : bool;
  timeLeft : option Z;
  canExtend : bool
}.

End CallSession.

(** ** The combined transcript *)

(** The two transcript sources, ['share'] (the system tap) and
    ['microphone']. *)
Inductive Source : Type := share | microphone.

Definition Source_eqb (a b : Source) : bool :=
  match a, b with
  | share, share | microphone, microphone => true
  | _, _ => false
  end.

(** What [useSessionTranscription] takes from [useCombinedTranscript]:
    [addTranscript], [getCombinedTranscriptString] and
    [clearCombinedTranscript], over the hook's transcript state. *)
Class CombinedTranscript (B : Type) : Type := {
  addTranscript : string -> Source -> bool -> B -> B;
  getCombinedTranscriptString : B -> string;
  clearCombinedTranscript : B -> B
}.

Module Buffer.

(** Modelled from the spec: [useCombinedTranscript] is absent from the
    sources. An entry has a source, a text and a partial flag; the entries
    are kept in arrival order, which stands for the sequence field. *)
Record TranscriptEntry : Type := {
  source : Source;
  text : string;
  isPartial : bool
}.

Definition open_partial_of (src : Source) (e : TranscriptEntry) : bool :=
  isPartial e && Source_eqb (source e) src.

(** Modelled from the spec: [addTranscript(text, source, isPartial)] of
    the absent [useCombinedTranscript]: "if isPartial, replace that source's
    open partial entry (or create one if absent); if not partial (final),
    drop that source's open partial and append an immutable entry". *)
Definition addTranscript (txt : string) (src : Source) (partial : bool)
    (b : list TranscriptEntry) : list TranscriptEntry :=
  let e := {| source := src; text := txt; isPartial := partial |} in
  if partial then
    if existsb (open_partial_of src) b
    then map (fun x => if open_partial_of src x then e else x) b
    else b ++ [e]
  else filter (fun x => negb (open_partial_of src x)) b ++ [e].

(** Modelled from the spec: [getCombinedTranscriptString()] of the absent
    [useCombinedTranscript]: it "concatenates all finalized entries (and any
    currently-open partials) across both sources in chronological arrival
    order"; what stands between two entries is not said and is left as
    [sep]. *)
Definition getCombinedTranscriptString (sep : string)
    (b : list TranscriptEntry) : string :=
  String.concat sep (map text b).

(** Modelled from the spec: [clear()] "discards all entries and open
    partials". *)
Definition clear (b : list TranscriptEntry) : list TranscriptEntry := [].

(** One [addTranscript] event and a run of them from the empty buffer. *)
Record TranscriptEvent : Type := {
  ev_text : string;
  ev_source : Source;
  ev_partial : bool
}.

Definition feed (b : list TranscriptEntry) (ev : TranscriptEvent)
    : list TranscriptEntry :=
  addTranscript (ev_text ev) (ev_source ev) (ev_partial ev) b.

Definition run (evs : list TranscriptEvent) : list TranscriptEntry :=
  fold_left feed evs [].

Definition partials_of (src : Source) (b : list TranscriptEntry)
    : list TranscriptEntry :=
  filter (open_partial_of src) b.

Definition finals (b : list TranscriptEntry) : list TranscriptEntry :=
  filter (fun x => negb (isPartial x)) b.

Definition others (src : Source) (b : list TranscriptEntry)
    : list TranscriptEntry :=
  filter (fun x => negb (open_partial_of src x)) b.

End Buffer.

(** The modelled buffer as the hook's transcript state. *)
Definition buffer_hook (sep : string)
    : CombinedTranscript (list Buffer.TranscriptEntry) :=
  {| addTranscript := Buffer.addTranscript;
     getCombinedTranscriptString := Buffer.getCombinedTranscriptString sep;
     clearCombinedTranscript := Buffer.clear |}.

(** ** Chat messages *)

(** The [role] of an ai-sdk [Message]. *)
Inductive Role : Type := user | assistant | system | data_role.

Definition is_user (r : Role) : bool :=
  match r with user => true | _ => false end.

(** The [task] of [handleGenerateResponse]. *)
Inductive Task : Type := ai_help | what_to_say | direct_message.

Definition is_direct_message (t : Task) : bool :=
  match t with direct_message => true | _ => false end.

(** [message.data]: the task tag and the attached image. *)
Record MessageData : Type := {
  task : option Task;
  imageUrl : option string
}.

(** A chat message; its id and [createdAt] are given by the chat library
    and the clock and are left out. *)
Record Message : Type := {
  role : Role;
  content : string;
  data : option MessageData
}.

(** [m.data?.imageUrl] *)
Definition message_imageUrl (m : Message) : option string :=
  match data m with
  | Some d => imageUrl d
  | None => None
  end.

(** A message has an attached image when [m.data?.imageUrl] is truthy. *)
Definition has_image (m : Message) : bool := truthy_opt (message_imageUrl m).

(** [{ ...m, data: { ...m.data, imageUrl: undefined } }] *)
Definition without_image (m : Message) : Message :=
  {| role := role m;
     content := content m;
     data := Some {| task := match data m with
                             | Some d => task d
                             | None => None
                             end;
                     imageUrl := None |} |}.

(** [arr.slice(-n)] *)
Definition slice_last {A} (n : nat) (l : list A) : list A :=
  skipn (List.length l - n) l.

(** [arr.map((m, idx) => f m idx)], with [idx] counted from [i]. *)
Fixpoint mapi_from {A B} (f : A -> nat -> B) (i : nat) (l : list A) : list B :=
  match l with
  | [] => []
  | x :: l' => f x i :: mapi_from f (S i) l'
  end.

(** The callback of the [map] in [prepareMessagesForNewMessage]. *)
Definition strip_older_image (arr : list Message) (m : Message) (idx : nat)
    : Message :=
  let isLast := (Z.of_nat idx =? Z.of_nat (List.length arr) - 1)%Z in
  if is_user (role m) && has_image m && negb isLast
  then without_image m
  else m.

(** [newMessages] of [prepareMessagesForNewMessage]. *)
Definition newMessages (messages : list Message) : list Message :=
  let arr := slice_last 10 messages in
  mapi_from (strip_older_image arr) 0 arr.

(** ** The hook [useSessionTranscription] *)

(** Calls the hook makes to its collaborators, in order. *)
Inductive Call : Type :=
| ChatStop
| ChatAppend (m : Message)
| SaveAiAnswer (callSessionId : string) (content : string) (role : Role)
| SetQueryData (id : string) (cs : CallSession.t)
| GenerateSpeechmaticsSession
| SwitchAudioTapApiKey (key : option string) (language : string)
| SwitchMicrophoneApiKey (key : option string) (language : string)
| CaptureScreenshot
| ResizeImage (dataUrl : string)
| AddToCombinedTranscript (text : string) (source : Source) (partial : bool)
| ClearCombinedTranscript
| ConsoleError (msg : string) (error : JsError).

Definition is_SetQueryData (c : Call) : bool :=
  match c with SetQueryData _ _ => true | _ => false end.

Definition is_GenerateSpeechmaticsSession (c : Call) : bool :=
  match c with GenerateSpeechmaticsSession => true | _ => false end.

Definition is_ChatAppend (c : Call) : bool :=
  match c with ChatAppend _ => true | _ => false end.

Definition is_SaveAiAnswer (c : Call) : bool :=
  match c with SaveAiAnswer _ _ _ => true | _ => false end.

Definition is_ClearCombinedTranscript (c : Call) : bool :=
  match c with ClearCombinedTranscript => true | _ => false end.

Definition is_AddToCombinedTranscript (c : Call) : bool :=
  match c with AddToCombinedTranscript _ _ _ => true | _ => false end.

Section Hook.
Context {B : Type} {buffer : CombinedTranscript B}.

(** The state a render of the hook sees: the query data, the state of the
    hooks it composes, its own [useState] cells, and the calls made so
    far. [streaming] is the chat library's in-flight request. *)
Record State : Type := {
  callSession : option CallSession.t;
  generateSpeechmaticsSessionLoading : bool;
  audioTapStatus : Status;
  isRecordingMicrophone : bool;
  messages : list Message;
  streaming : bool;
  chatInput : string;
  now : Z;
  hasAutoExtended : bool;
  hasChatActivitySinceLastExtension : bool;
  combinedTranscript : B;
  calls : list Call
}.

Definition with_callSession (v : option CallSession.t) (s : State) : State :=
  {| callSession := v;
     generateSpeechmaticsSessionLoading := generateSpeechmaticsSessionLoading s;
     audioTapStatus := audioTapStatus s;
     isRecordingMicrophone := isRecordingMicrophone s;
     messages := messages s; streaming := streaming s;
     chatInput := chatInput s; now := now s;
     hasAutoExtended := hasAutoExtended s;
     hasChatActivitySinceLastExtension := hasChatActivitySinceLastExtension s;
     combinedTranscript := combinedTranscript s; calls := calls s |}.

Definition with_loading (v : bool) (s : State) : State :=
  {| callSession := callSession s;
     generateSpeechmaticsSessionLoading := v;
     audioTapStatus := audioTapStatus s;
     isRecordingMicrophone := isRecordingMicrophone s;
     messages := messages s; streaming := streaming s;
     chatInput := chatInput s; now := now s;
     hasAutoExtended := hasAutoExtended s;
     hasChatActivitySinceLastExtension := hasChatActivitySinceLastExtension s;
     combinedTranscript := combinedTranscript s; calls := calls s |}.

Definition with_messages (v : list Message) (s : State) : State :=
  {| callSession := callSession s;
     generateSpeechmaticsSessionLoading := generateSpeechmaticsSessionLoading s;
     audioTapStatus := audioTapStatus s;
     isRecordingMicrophone := isRecordingMicrophone s;
     messages := v; streaming := streaming s;
     chatInput := chatInput s; now := now s;
     hasAutoExtended := hasAutoExtended s;
     hasChatActivitySinceLastExtension := hasChatActivitySinceLastExtension s;
     combinedTranscript := combinedTranscript s; calls := calls s |}.

Definition with_streaming (v : bool) (s : State) : State :=
  {| callSession := callSession s;
     generateSpeechmaticsSessionLoading := generateSpeechmaticsSessionLoading s;
     audioTapStatus := audioTapStatus s;
     isRecordingMicrophone := isRecordingMicrophone s;
     messages := messages s; streaming := v;
     chatInput := chatInput s; now := now s;
     hasAutoExtended := hasAutoExtended s;
     hasChatActivitySinceLastExtension := hasChatActivitySinceLastExtension s;
     combinedTranscript := combinedTranscript s; calls := calls s |}.

Definition with_chatInput (v : string) (s : State) : State :=
  {| callSession := callSession s;
     generateSpeechmaticsSessionLoading := generateSpeechmaticsSessionLoading s;
     audioTapStatus := audioTapStatus s;
     isRecordingMicrophone := isRecordingMicrophone s;
     messages := messages s; streaming := streaming s;
     chatInput := v; now := now s;
     hasAutoExtended := hasAutoExtended s;
     hasChatActivitySinceLastExtension := hasChatActivitySinceLastExtension s;
     combinedTranscript := combinedTranscript s; calls := calls s |}.

Definition with_now (v : Z) (s : State) : State :=
  {| callSession := callSession s;
     generateSpeechmaticsSessionLoading := generateSpeechmaticsSessionLoading s;
     audioTapStatus := audioTapStatus s;
     isRecordingMicrophone := isRecordingMicrophone s;
     messages := messages s; streaming := streaming s;
     chatInput := chatInput s; now := v;
     hasAutoExtended := hasAutoExtended s;
     hasChatActivitySinceLastExtension := hasChatActivitySinceLastExtension s;
     combinedTranscript := combinedTranscript s; calls := calls s |}.

Definition with_hasAutoExtended (v : bool) (s : State) : State :=
  {| callSession := callSession s;
     generateSpeechmaticsSessionLoading := generateSpeechmaticsSessionLoading s;
     audioTapStatus := audioTapStatus s;
     isRecordingMicrophone := isRecordingMicrophone s;
     messages := messages s; streaming := streaming s;
     chatInput := chatInput s; now := now s;
     hasAutoExtended := v;
     hasChatActivitySinceLastExtension := hasChatActivitySinceLastExtension s;
     combinedTranscript := combinedTranscript s; calls := calls s |}.

Definition with_hasChatActivity (v : bool) (s : State) : State :=
  {| callSession := callSession s;
     generateSpeechmaticsSessionLoading := generateSpeechmaticsSessionLoading s;
     audioTapStatus := audioTapStatus s;
     isRecordingMicrophone := isRecordingMicrophone s;
     messages := messages s; streaming := streaming s;
     chatInput := chatInput s; now := now s;
     hasAutoExtended := hasAutoExtended s;
     hasChatActivitySinceLastExtension := v;
     combinedTranscript := combinedTranscript s; calls := calls s |}.

Definition with_combinedTranscript (v : B) (s : State) : State :=
  {| callSession := callSession s;
     generateSpeechmaticsSessionLoading := generateSpeechmaticsSessionLoading s;
     audioTapStatus := audioTapStatus s;
     isRecordingMicrophone := isRecordingMicrophone s;
     messages := messages s; streaming := streaming s;
     chatInput := chatInput s; now := now s;
     hasAutoExtended := hasAutoExtended s;
     hasChatActivitySinceLastExtension := hasChatActivitySinceLastExtension s;
     combinedTranscript := v; calls := calls s |}.

Definition with_calls (v : list Call) (s : State) : State :=
  {| callSession := callSession s;
     generateSpeechmaticsSessionLoading := generateSpeechmaticsSessionLoading s;
     audioTapStatus := audioTapStatus s;
     isRecordingMicrophone := isRecordingMicrophone s;
     messages := messages s; streaming := streaming s;
     chatInput := chatInput s; now := now s;
     hasAutoExtended := hasAutoExtended s;
     hasChatActivitySinceLastExtension := hasChatActivitySinceLastExtension s;
     combinedTranscript := combinedTranscript s; calls := v |}.

Definition call (c : Call) : M unit :=
  modify (fun s => with_calls (calls s ++ [c]) s).

(** [await f()], where the promise settles as [outcome]. *)
Definition await {A} (c : Call) (outcome : JsError + A) : M A :=
  (call c ;;
   match outcome with
   | inl e => throw e
   | inr a => ret a
   end)%handler.

(** *** The transcript callbacks given to the two adapters *)

Definition addToCombinedTranscript (txt : string) (src : Source)
    (partial : bool) : M unit :=
  (call (AddToCombinedTranscript txt src partial) ;;
   modify (fun s =>
     with_combinedTranscript
       (addTranscript txt src partial (combinedTranscript s)) s))%handler.

(** First callback of [useAudioTap]: a final transcript. *)
Definition audioTap_onFinal (transcript : string) : M unit :=
  if negb (truthy transcript) then ret tt
  else addToCombinedTranscript transcript share false.

(** Second callback of [useAudioTap]: a partial transcript. *)
Definition audioTap_onPartial (partialTranscript : string) : M unit :=
  addToCombinedTranscript partialTranscript share true.

(** First callback of [useMicrophoneTranscription]. *)
Definition microphone_onFinal (transcript : string) : M unit :=
  if negb (truthy transcript) then ret tt
  else addToCombinedTranscript transcript microphone false.

(** Second callback of [useMicrophoneTranscription]. *)
Definition microphone_onPartial (partialTranscript : string) : M unit :=
  addToCombinedTranscript partialTranscript microphone true.

(** *** The chat *)

(** [stop], [setMessages] and [append] of [useChat]: the message list is
    the chat library's, [append] adds the message at its end and opens a
    request. *)
Definition stop : M unit :=
  (call ChatStop ;; modify (with_streaming false))%handler.

Definition setMessages (ms : list Message) : M unit :=
  modify (with_messages ms).

Definition append (m : Message) : M unit :=
  (call (ChatAppend m) ;;
   modify (fun s => with_streaming true (with_messages (messages s ++ [m]) s))
  )%handler.

Definition appendAndSave (message : Message) : M unit :=
  (append message ;;
   s <- get ;;
   match callSession s with
   | Some cs =>
       if is_user (role message) && truthy (CallSession.id cs)
          && CallSession.saveTranscription cs
       then call (SaveAiAnswer (CallSession.id cs) (content message)
                               (role message))
       else ret tt
   | None => ret tt
   end)%handler.

(** The calls [saveAiAnswer] receives when [appendAndSave] is given a
    user turn of [content]. *)
Definition saved_calls (s : State) (content : string) : list Call :=
  match callSession s with
  | Some cs =>
      if truthy (CallSession.id cs) && CallSession.saveTranscription cs
      then [SaveAiAnswer (CallSession.id cs) content user]
      else []
  | None => []
  end.

(** The calls made between two states. *)
Definition new_calls (before after : State) : list Call :=
  skipn (List.length (calls before)) (calls after).

Definition prepareMessagesForNewMessage : M unit :=
  (s <- get ;; setMessages (newMessages (messages s)))%handler.

Definition direct_message_prefix : string :=
  "**Direct Message from Sales Agent**: ".

(** [content] of [handleGenerateResponse]. *)
Definition generate_content (t : Task) (s : State) : string :=
  if is_direct_message t then direct_message_prefix ++ chatInput s
  else if truthy (chatInput s) then chatInput s
  else getCombinedTranscriptString (combinedTranscript s).

(** [handleGenerateResponse]; the wait of one timer tick after [stop()]
    changes no state and is left out. *)
Definition handleGenerateResponse (t : Task) : M unit :=
  (modify (with_hasChatActivity true) ;;
   stop ;;
   prepareMessagesForNewMessage ;;
   s <- get ;;
   let content := generate_content t s in
   appendAndSave {| role := user; content := content;
                    data := Some {| task := Some t; imageUrl := None |} |} ;;
   if is_direct_message t then modify (with_chatInput "")
   else
     call ClearCombinedTranscript ;;
     modify (fun s =>
       with_combinedTranscript
         (clearCombinedTranscript (combinedTranscript s)) s))%handler.

Definition screenshot_prompt : string :=
  "This is a screenshot of the callee's screen. Analyze the screen and provide a useful response.".

(** [capture] is how [captureScreenshotMutate()] settles, [resize] how
    [resizeImage(dataUrl)] does. *)
Definition handleGenerateResponseWithScreenshot
    (capture : JsError + string) (resize : string -> JsError + string)
    : M unit :=
  (modify (with_hasChatActivity true) ;;
   stop ;;
   try_catch
     (dataUrl <- await CaptureScreenshot capture ;;
      resizedDataUrl <- await (ResizeImage dataUrl) (resize dataUrl) ;;
      prepareMessagesForNewMessage ;;
      appendAndSave {| role := user; content := screenshot_prompt;
                       data := Some {| task := None;
                                       imageUrl := Some resizedDataUrl |} |})
     (fun err => call (ConsoleError "Listen error:" err)))%handler.

(** *** Session timer and auto-extension *)

Definition timeLeft (s : State) : option Z :=
  match callSession s with
  | Some cs =>
      match CallSession.endsAt cs with
      | Some e => Some (e - now s)%Z
      | None => None
      end
  | None => None
  end.

Definition willAutoExtend (s : State) : bool :=
  match callSession s with
  | Some cs =>
      num_below (CallSession.timeLeft cs) 360000
      && negb (generateSpeechmaticsSessionLoading s)
      && CallSession.canExtend cs
      && negb (CallSession.trial cs)
      && hasChatActivitySinceLastExtension s
  | None => false
  end.

Definition canAutoExtend (s : State) : bool :=
  match callSession s with
  | Some cs =>
      num_above (CallSession.timeLeft cs) 360000
      && negb (generateSpeechmaticsSessionLoading s)
      && CallSession.canExtend cs
      && negb (CallSession.trial cs)
      && hasChatActivitySinceLastExtension s
  | None => false
  end.

(** [generate n] is how the [n]-th call of [generateSpeechmaticsSession]
    settles. *)
Variable generate : nat -> JsError + CallSession.t.

Definition generateSpeechmaticsSession : M CallSession.t :=
  (s <- get ;;
   let n := List.length (filter is_GenerateSpeechmaticsSession (calls s)) in
   await GenerateSpeechmaticsSession (generate n))%handler.

(** [handleSessionExtended]; the query cache it writes belongs to the
    session store, so the write is recorded as a call. *)
Definition handleSessionExtended (newCallSession : CallSession.t) : M unit :=
  (call (SetQueryData (CallSession.id newCallSession) newCallSession) ;;
   speechmaticsApiKey <-
     (if negb (truthy_opt (CallSession.speechmaticsApiKey newCallSession))
      then
        activatedCallSession <- generateSpeechmaticsSession ;;
        ret (CallSession.speechmaticsApiKey activatedCallSession)
      else ret (CallSession.speechmaticsApiKey newCallSession)) ;;
   s <- get ;;
   match audioTapStatus s with
   | RECORDING =>
       call (SwitchAudioTapApiKey speechmaticsApiKey
                                  (CallSession.language newCallSession))
   | _ => ret tt
   end ;;
   (if isRecordingMicrophone s
    then call (SwitchMicrophoneApiKey speechmaticsApiKey
                                      (CallSession.language newCallSession))
    else ret tt) ;;
   modify (with_hasChatActivity false))%handler.

(** The credential switches of [handleSessionExtended]: one for each
    adapter that is recording. *)
Definition switch_calls (s : State) (key : option string) (lang : string)
    : list Call :=
  match audioTapStatus s with
  | RECORDING => [SwitchAudioTapApiKey key lang]
  | _ => []
  end ++
  if isRecordingMicrophone s then [SwitchMicrophoneApiKey key lang] else [].

(** A render in which the session is eligible for renewal and the local
    time left is non-zero and below 60000 ms. *)
Definition eligible_near_expiry (s : State) : bool :=
  willAutoExtend s && num_below (timeLeft s) 60000.

(** The condition of the first auto-extension effect. *)
Definition renewal_due (s : State) : bool :=
  willAutoExtend s && num_below (timeLeft s) 60000
  && negb (hasAutoExtended s).

(** The condition of the second auto-extension effect. *)
Definition reset_due (s : State) : bool :=
  num_above (timeLeft s) 60000 && hasAutoExtended s.

(** The two auto-extension effects of one render: both read the values
    the render [snap] was made with. The promise of
    [handleSessionExtended] is not awaited, so its rejection stops only
    [handleSessionExtended] itself. *)
Definition autoExtendEffect (snap : State) : M unit :=
  (if renewal_due snap then
     modify (with_hasAutoExtended true) ;;
     match callSession snap with
     | Some cs => try_catch (handleSessionExtended cs) (fun _ => ret tt)
     | None => ret tt
     end
   else ret tt)%handler.

Definition resetEffect (snap : State) : M unit :=
  if reset_due snap then modify (with_hasAutoExtended false) else ret tt.

Definition commit : M unit :=
  (snap <- get ;; autoExtendEffect snap ;; resetEffect snap)%handler.

(** What makes the hook render again: the one-second timer, a refetch of
    the session, the activation mutation starting or ending, a change of
    the input box, and the two chat triggers. *)
Inductive Input : Type :=
| Tick (date : Z)
| Refetch (cs : option CallSession.t)
| MutationPending (pending : bool)
| SetChatInput (txt : string)
| Generate (t : Task)
| GenerateWithScreenshot (capture : JsError + string)
    (resize : string -> JsError + string).

Definition apply_input (i : Input) : M unit :=
  match i with
  | Tick date => modify (with_now date)
  | Refetch cs => modify (with_callSession cs)
  | MutationPending b => modify (with_loading b)
  | SetChatInput txt => modify (with_chatInput txt)
  | Generate t => handleGenerateResponse t
  | GenerateWithScreenshot capture resize =>
      handleGenerateResponseWithScreenshot capture resize
  end.

(** One input, then the render it causes with its effects. *)
Definition step (i : Input) (s : State) : State :=
  snd ((apply_input i ;; commit)%handler s).

Fixpoint run (ins : list Input) (s : State) : State :=
  match ins with
  | [] => s
  | i :: ins' => run ins' (step i s)
  end.

(** The state each render of a run was made with. *)
Fixpoint renders (ins : list Input) (s : State) : list State :=
  match ins with
  | [] => []
  | i :: ins' => snd (apply_input i s) :: renders ins' (step i s)
  end.

(** The renewals attempted so far: the calls of [handleSessionExtended],
    each of which starts with its write to the query cache. *)
Definition renewals (s : State) : nat :=
  List.length (filter is_SetQueryData (calls s)).

End Hook.

Arguments State B : clear implicits.

(** ** More of the hook: persistence on finish, clearing, and the
    start handlers of the two adapters *)

Section HookControls.
Context {B : Type} {buffer : CombinedTranscript B}.

(** [onFinish] of [useChat]: a finished assistant message is saved under
    the same conditions as a user turn. *)
Definition onFinish (message : Message) : M (St := State B) unit :=
  (s <- get ;;
   match role message, callSession s with
   | assistant, Some cs =>
       if truthy (CallSession.id cs) && CallSession.saveTranscription cs
       then call (SaveAiAnswer (CallSession.id cs) (content message)
                               (role message))
       else ret tt
   | _, _ => ret tt
   end)%handler.

(** [handleClearAllAnswers] *)
Definition handleClearAllAnswers : M (St := State B) unit :=
  (stop ;; setMessages [])%handler.

(** Whether turns of the session are persisted: [callSession?.id &&
    callSession.saveTranscription]. *)
Definition saving (s : State B) : bool :=
  match callSession s with
  | Some cs => truthy (CallSession.id cs) && CallSession.saveTranscription cs
  | None => false
  end.

(** The user turns of a history that carry an image. *)
Definition images (ms : list Message) : nat :=
  List.length (filter (fun m => is_user (role m) && has_image m) ms).

(** The chat-activity flag as a number: one renewal it can pay for. *)
Definition activity (s : State B) : nat :=
  if hasChatActivitySinceLastExtension s then 1 else 0.

(** The inputs that are chat triggers. *)
Definition is_trigger (i : Input) : bool :=
  match i with
  | Generate _ | GenerateWithScreenshot _ _ => true
  | _ => false
  end.

(** Calls to [useAudioTap] and [useMicrophoneTranscription], two hooks
    that are not in the sources: what they do is not modelled, only that
    they are called and how their promise settles. *)
Inductive AdapterCall : Type :=
| StartAudioTapTranscription (key : option string) (language : string)
| StartMicrophoneTranscription (key : option string) (language : string).

(** The hook's state with the [startingMicrophoneTranscription] cell and
    the calls to the adapters. *)
Record Controls : Type := {
  hook : State B;
  startingMicrophoneTranscription : bool;
  adapter_calls : list AdapterCall
}.

(** A handler of the hook's state, run inside [Controls]. *)
Definition lift {A} (m : M (St := State B) A) : M (St := Controls) A :=
  fun c =>
    (fst (m (hook c)),
     {| hook := snd (m (hook c));
        startingMicrophoneTranscription := startingMicrophoneTranscription c;
        adapter_calls := adapter_calls c |}).

Definition setStartingMicrophoneTranscription (v : bool)
    : M (St := Controls) unit :=
  modify (fun c => {| hook := hook c;
                      startingMicrophoneTranscription := v;
                      adapter_calls := adapter_calls c |}).

(** [await start(key, language)] of an adapter, settling as [outcome]. *)
Definition await_adapter (a : AdapterCall) (outcome : JsError + unit)
    : M (St := Controls) unit :=
  (modify (fun c => {| hook := hook c;
                       startingMicrophoneTranscription :=
                         startingMicrophoneTranscription c;
                       adapter_calls := adapter_calls c ++ [a] |}) ;;
   match outcome with
   | inl e => throw e
   | inr _ => ret tt
   end)%handler.

(** [try { body } finally { final }] *)
Definition try_finally {St A} (body : M (St := St) A)
    (final : M (St := St) unit) : M (St := St) A :=
  fun s =>
    match body s with
    | (r, s') =>
        match final s' with
        | (inr _, s'') => (r, s'')
        | (inl e, s'') => (inl e, s'')
        end
    end.

Variable generate : nat -> JsError + CallSession.t.

(** Calls to the stop functions of the two adapter hooks. *)
Inductive StopCall : Type :=
| StopAudioTapRecording
| StopMicrophoneRecording.

(** [sessionExpired]: [callSession && callSession.expired]. *)
Definition sessionExpired (s : State B) : bool :=
  match callSession s with
  | Some cs => CallSession.expired cs
  | None => false
  end.

(** [handleStopAllRecording] *)
Definition handleStopAllRecording : list StopCall :=
  [StopAudioTapRecording; StopMicrophoneRecording].

(** The effect that stops recording when the session expires, in one
    render. React runs an effect when its dependency list changed; this
    list holds [sessionExpired] and the two stop functions of the adapter
    hooks, which are not in the sources, so whether the effect runs in a
    render is given as [runs]. *)
Definition expiredEffect (runs : bool) (snap : State B) : list StopCall :=
  if runs then
    if sessionExpired snap then handleStopAllRecording else []
  else [].

(** The stop calls of a run in which each input comes with whether the
    expiry effect runs in the render the input causes. The effect is the
    first of the effects of a render and writes none of the hook's own
    state cells, so the renders are those of [step]. *)
Fixpoint stop_calls (ins : list (Input * bool)) (s : State B)
    : list StopCall :=
  match ins with
  | [] => []
  | (i, runs) :: ins' =>
      expiredEffect runs (snd (apply_input i s))
      ++ stop_calls ins' (step generate i s)
  end.

(** The credential both start handlers use: the one of the session, or
    the one of the session the activation resolves with. *)
Definition credential_for (callSession : CallSession.t)
    : M (St := Controls) (option string) :=
  (if negb (truthy_opt (CallSession.speechmaticsApiKey callSession)) then
     activatedCallSession <- lift (generateSpeechmaticsSession generate) ;;
     ret (CallSession.speechmaticsApiKey activatedCallSession)
   else ret (CallSession.speechmaticsApiKey callSession))%handler.

(** [handleStartAudioTapTranscription]; [started] is how
    [startAudioTapTranscription] settles. *)
Definition handleStartAudioTapTranscription (started : JsError + unit)
    : M (St := Controls) unit :=
  (c <- get ;;
   match callSession (hook c) with
   | None => ret tt
   | Some callSession =>
       try_catch
         (speechmaticsApiKey <- credential_for callSession ;;
          await_adapter
            (StartAudioTapTranscription speechmaticsApiKey
               (CallSession.language callSession)) started)
         (fun error =>
            lift (call (ConsoleError "Audio tap transcription error:" error)))
   end)%handler.

(** [handleStartMicrophoneTranscription]; [started] is how
    [startMicrophoneTranscription] settles. *)
Definition handleStartMicrophoneTranscription (started : JsError + unit)
    : M (St := Controls) unit :=
  (c <- get ;;
   match callSession (hook c) with
   | None => ret tt
   | Some callSession =>
       setStartingMicrophoneTranscription true ;;
       try_finally
         (speechmaticsApiKey <- credential_for callSession ;;
          await_adapter
            (StartMicrophoneTranscription speechmaticsApiKey
               (CallSession.language callSession)) started)
         (setStartingMicrophoneTranscription false)
   end)%handler.

End HookControls.

Arguments Controls B : clear implicits.

(** ** The session query: [src/renderer/lib/useCallSession.ts] *)

Module Query.

Section WithNumbers.

(** JSON numbers, with what the code needs of them: whether a number is
    truthy (not zero) and how JavaScript prints it. *)
Variable Num : Type.
Variable num_truthy : Num -> bool.
Variable num_to_string : Num -> string.

(** A value [JSON.parse] can give. *)
#[warnings="-register-all"]
Inductive Json : Type :=
| JNull
| JBool (b : bool)
| JNumber (n : Num)
| JString (s : string)
| JArray (items : list Json)
| JObject (fields : list (string * Json)).

(** The property [key] of a parsed object: of two fields with the same
    key the later one stands. *)
Fixpoint lookup_last (key : string) (fields : list (string * Json))
    : option Json :=
  match fields with
  | [] => None
  | (k, v) :: rest =>
      match lookup_last key rest with
      | Some v' => Some v'
      | None => if String.eqb k key then Some v else None
      end
  end.

(** Truthiness of a parsed value. *)
Definition truthy_json (j : Json) : bool :=
  match j with
  | JNull => false
  | JBool b => b
  | JNumber n => num_truthy n
  | JString s => truthy s
  | JArray _ | JObject _ => true
  end.

(** [String(j)], which is what [new Error(j)] takes as its message: an
    array prints its items separated by commas, a [null] item as nothing,
    and an object prints as [[object Object]]. *)
Fixpoint to_string (j : Json) : string :=
  match j with
  | JNull => "null"
  | JBool true => "true"
  | JBool false => "false"
  | JNumber n => num_to_string n
  | JString s => s
  | JArray items =>
      String.concat ","
        (map (fun x => match x with JNull => "" | _ => to_string x end) items)
  | JObject _ => "[object Object]"
  end.

(** What [queryFn] sees of the response of [fetch]: [res.ok],
    [res.status], and how [res.json()] settles. *)
Record Response : Type := {
  ok : bool;
  status : nat;
  json : JsError + Json
}.

(** How the promise of [queryFn] rejects: with the [Error] the code
    throws, with the [TypeError] of reading a property of [null], or with
    the rejection of [res.json()] itself. *)
Inductive Rejection : Type :=
| ErrorWith (message : string)
| TypeErrorOnNull
| JsonRejected (e : JsError).

(** The template [Request failed with status ${res.status}]. *)
Definition request_failed (status : nat) : string :=
  "Request failed with status " ++
  DecimalString.NilZero.string_of_uint (Nat.to_uint status).

(** [errorData]: the parsed body, or the object the [catch] after
    [res.json()] gives. *)
Inductive ErrorData : Type :=
| Parsed (body : Json)
| Fallback (message : string).

(** [errorData.error]: reading it throws on [null]; an object gives its
    field; every other value, and the fallback object, gives
    [undefined]. *)
Definition error_field (d : ErrorData) : Rejection + option Json :=
  match d with
  | Parsed JNull => inl TypeErrorOnNull
  | Parsed (JObject fields) => inr (lookup_last "error" fields)
  | Parsed _ => inr None
  | Fallback _ => inr None
  end.

(** The function given to [then] in [queryFn]. *)
Definition queryFn (res : Response) : Rejection + Json :=
  if negb (ok res) then
    let errorData :=
      match json res with
      | inr body => Parsed body
      | inl _ => Fallback "Unknown error"
      end in
    match error_field errorData with
    | inl thrown => inl thrown
    | inr (Some e) =>
        inl (ErrorWith (if truthy_json e then to_string e
                        else request_failed (status res)))
    | inr None => inl (ErrorWith (request_failed (status res)))
    end
  else
    match json res with
    | inr body => inr body
    | inl e => inl (JsonRejected e)
    end.

End WithNumbers.

Arguments JNull {Num}.
Arguments JBool {Num} _.
Arguments JNumber {Num} _.
Arguments JString {Num} _.
Arguments JArray {Num} _.
Arguments JObject {Num} _.
Arguments ok {Num} _.
Arguments status {Num} _.
Arguments json {Num} _.
Arguments lookup_last {Num} _ _.

(** [enabled: !!callSessionId] *)
Definition enabled (callSessionId : option string) : bool :=
  truthy_opt callSessionId.

End Query.

(** ** Instances over a run of the main process *)

(** The instances the native starts returned, in the order of the
    trace. *)
Definition started_instances (tr : list Main.Event) : list Main.Handle :=
  flat_map (fun e => match e with
                     | Main.StartSettled _ (inr h) => [h]
                     | _ => []
                     end) tr.

(** The instances whose [cleanup()] was called, once for each call. *)
Definition cleaned_instances (tr : list Main.Event) : list Main.Handle :=
  flat_map (fun e => match e with
                     | Main.CleanupCalled h => [h]
                     | _ => []
                     end) tr.

(** The books of a state: what was started is what was cleaned, in the
    same order, then what the slot holds; instances are named below the
    start counter and none twice. *)
Definition books_balance (w : Main.World) : Prop :=
  started_instances (Main.trace w) =
    (cleaned_instances (Main.trace w) ++ Main.held w)%list /\
  Forall (fun h => h < Main.starts w)%nat (started_instances (Main.trace w)) /\
  NoDup (started_instances (Main.trace w)).

(** ** Overlapping invocations of the two handlers *)

(** [ipcMain.handle] starts a handler for each invocation as it arrives,
    and an [async] handler gives way at each [await]: between the call of
    [cleanup()] or of the native start and the code after it, other
    handlers can run. Here a handler is cut at its awaits, and a schedule
    says which invocation goes on next. *)
Module Overlap.

Import Main.

(** Where an invocation stands: at its entry, at one of its awaits, or
    finished with what it returned or threw. *)
Inductive Pc : Type :=
| StartEntry (cfg : AudioTapConfig)
| StartAwaitsCleanup (cfg : AudioTapConfig) (h : Handle)
| StartAwaitsStart (cfg : AudioTapConfig) (impl : Impl) (n : nat)
| StopEntry
| StopAwaitsCleanup (h : Handle)
| Finished (result : JsError + Status).

Definition emits (es : list Event) (w : World) : World :=
  {| audioTapInstance := audioTapInstance w;
     starts := starts w;
     trace := trace w ++ es |}.

Definition with_slot (o : option Handle) (w : World) : World :=
  {| audioTapInstance := o; starts := starts w; trace := trace w |}.

Section WithHost.
Variable host : Host.

(** The second [try] of [ipc-start-audio-tap] up to its await: the
    native start is called and the handler waits for it, or the platform
    is not supported and the handler logs and throws at once. *)
Definition call_start (cfg : AudioTapConfig) (w : World) : Pc * World :=
  match native_impl host with
  | Some impl =>
      (StartAwaitsStart cfg impl (starts w),
       {| audioTapInstance := audioTapInstance w;
          starts := S (starts w);
          trace := trace w ++ [StartCalled impl cfg] |})
  | None =>
      (Finished (inl (unsupported_platform host)),
       emits [ConsoleLog "Error starting audio tap"
                (Some (unsupported_platform host))] w)
  end.

(** One invocation goes on until its next await or its end. *)
Definition resume (pc : Pc) (w : World) : Pc * World :=
  match pc with
  | StartEntry cfg =>
      match audioTapInstance w with
      | Some instance =>
          (StartAwaitsCleanup cfg instance,
           emits [ConsoleLog
                    "Cleaning up existing audio tap instance before starting new one"
                    None;
                  CleanupCalled instance] w)
      | None => call_start cfg w
      end
  | StartAwaitsCleanup cfg instance =>
      call_start cfg
        (with_slot None
           (emits [CleanupSettled instance (cleanup_rejects host instance);
                   match cleanup_rejects host instance with
                   | Some error =>
                       ConsoleError "Error during audio tap cleanup:" error
                   | None =>
                       ConsoleLog "Existing audio tap cleanup completed" None
                   end] w))
  | StartAwaitsStart cfg impl n =>
      match start_rejects host impl n cfg with
      | Some error =>
          (Finished (inl error),
           emits [StartSettled impl (inl error);
                  ConsoleLog "Error starting audio tap" (Some error)] w)
      | None =>
          (Finished (inr RECORDING),
           with_slot (Some n) (emits [StartSettled impl (inr n)] w))
      end
  | StopEntry =>
      match audioTapInstance w with
      | Some instance =>
          (StopAwaitsCleanup instance,
           emits [ConsoleLog "Stopping audio tap..." None;
                  CleanupCalled instance] w)
      | None => (Finished (inr IDLE), w)
      end
  | StopAwaitsCleanup instance =>
      (Finished (inr IDLE),
       with_slot None
         (emits [CleanupSettled instance (cleanup_rejects host instance);
                 match cleanup_rejects host instance with
                 | Some error => ConsoleError "Error stopping audio tap:" error
                 | None => ConsoleLog "Audio tap stopped successfully" None
                 end] w))
  | Finished result => (Finished result, w)
  end.

(** One invocation alone, until it has finished: a handler has at most
    two awaits. *)
Definition alone (pc : Pc) (w : World) : Pc * World :=
  let '(pc1, w1) := resume pc w in
  let '(pc2, w2) := resume pc1 w1 in
  resume pc2 w2.

(** The invocations in flight, and a schedule: the [i]-th invocation goes
    on, in the order the schedule lists them. *)
Fixpoint resume_nth (i : nat) (pool : list Pc) (w : World)
    : list Pc * World :=
  match pool, i with
  | [], _ => ([], w)
  | pc :: pool', 0 =>
      let '(pc', w') := resume pc w in (pc' :: pool', w')
  | pc :: pool', S i' =>
      let '(pool'', w') := resume_nth i' pool' w in (pc :: pool'', w')
  end.

Fixpoint run_schedule (schedule : list nat) (pool : list Pc) (w : World)
    : list Pc * World :=
  match schedule with
  | [] => (pool, w)
  | i :: schedule' =>
      let '(pool', w') := resume_nth i pool w in
      run_schedule schedule' pool' w'
  end.

End WithHost.

(** After the two overlapping starts: instance 0 is live and out of
    reach: the slot holds a later instance and [cleanup()] of instance 0
    was never called. *)
Definition lost_instance_0 (w : World) : Prop :=
  (forall h, audioTapInstance w = Some h -> 1 <= h)%nat /\
  (1 <= starts w)%nat /\
  ~ In (CleanupCalled 0) (trace w).

End Overlap.

(** ** The window, protocol URLs and shortcuts: [src/main/main.ts] *)

Module Shell.

(** [s.startsWith(p)] *)
Definition startsWith (s p : string) : bool := prefix p s.

(** [s] without its first [n] characters. *)
Fixpoint drop (n : nat) (s : string) : string :=
  match n, s with
  | S n', String _ s' => drop n' s'
  | _, _ => s
  end.

(** [s.replace(pat, rep)] for a string [pat]: the first occurrence of
    [pat], from the left, is replaced. The source only replaces by [''],
    so the [$] patterns of a replacement string play no part. *)
Fixpoint replace_first (pat rep s : string) : string :=
  if prefix pat s then rep ++ drop (String.length pat) s
  else
    match s with
    | EmptyString => EmptyString
    | String c s' => String c (replace_first pat rep s')
    end.

Definition is_empty (s : string) : bool :=
  match s with EmptyString => true | String _ _ => false end.

(** [s.replace(/\/$/, '')]: a slash that ends the string is removed. *)
Fixpoint strip_trailing_slash (s : string) : string :=
  match s with
  | EmptyString => EmptyString
  | String c s' =>
      if Ascii.eqb c "/"%char && is_empty s' then EmptyString
      else String c (strip_trailing_slash s')
  end.

(** Whether the last character of [s] is a slash. *)
Fixpoint ends_with_slash (s : string) : bool :=
  match s with
  | EmptyString => false
  | String c s' => if is_empty s' then Ascii.eqb c "/"%char else ends_with_slash s'
  end.

Definition protocol_prefix : string := "clozerai://".

(** [sessionId] of [handleProtocolUrl]. *)
Definition sessionId_of (url : string) : string :=
  strip_trailing_slash (replace_first protocol_prefix "" url).

(** What the handlers of this file read and write of the
    [BrowserWindow]: minimized, focused, shown, content protection and
    ignoring of mouse events. *)
Record BrowserWindow : Type := {
  minimized : bool;
  focused : bool;
  visible : bool;
  contentProtection : bool;
  ignoreMouseEvents : bool
}.

(** The module-level [mainWindow] and [initialProtocolUrl], the messages
    sent to the renderer with [webContents.send], and the console. *)
Record State : Type := {
  mainWindow : option BrowserWindow;
  initialProtocolUrl : option string;
  sent : list (string * list string);
  console : list (string * option string)
}.

Definition start_state : State :=
  {| mainWindow := None; initialProtocolUrl := None; sent := [];
     console := [] |}.

Definition log (msg : string) (arg : option string) : M unit :=
  modify (fun s => {| mainWindow := mainWindow s;
                      initialProtocolUrl := initialProtocolUrl s;
                      sent := sent s;
                      console := console s ++ [(msg, arg)] |}).

(** [mainWindow.webContents.send(channel, ...args)] *)
Definition send (channel : string) (args : list string) : M unit :=
  modify (fun s => {| mainWindow := mainWindow s;
                      initialProtocolUrl := initialProtocolUrl s;
                      sent := sent s ++ [(channel, args)];
                      console := console s |}).

Definition set_mainWindow (o : option BrowserWindow) : M unit :=
  modify (fun s => {| mainWindow := o;
                      initialProtocolUrl := initialProtocolUrl s;
                      sent := sent s;
                      console := console s |}).

Definition set_initialProtocolUrl (o : option string) : M unit :=
  modify (fun s => {| mainWindow := mainWindow s;
                      initialProtocolUrl := o;
                      sent := sent s;
                      console := console s |}).

(** [if (mainWindow.isMinimized()) mainWindow.restore(); mainWindow.focus()] *)
Definition restore_and_focus (win : BrowserWindow) : BrowserWindow :=
  {| minimized := if minimized win then false else minimized win;
     focused := true;
     visible := visible win;
     contentProtection := contentProtection win;
     ignoreMouseEvents := ignoreMouseEvents win |}.

(** [handleProtocolUrl] *)
Definition handleProtocolUrl (url : string) : M unit :=
  (log "Received protocol URL:" (Some url) ;;
   if negb (startsWith url protocol_prefix) then log "Invalid protocol" None
   else
     let sessionId := sessionId_of url in
     log "Session ID:" (Some sessionId) ;;
     s <- get ;;
     match mainWindow s with
     | Some win =>
         set_mainWindow (Some (restore_and_focus win)) ;;
         send "ipc-load-session" [sessionId]
     | None => set_initialProtocolUrl (Some url)
     end)%handler.

Section WithPlatform.
Variable platform : string.

Definition isWindows : bool := String.eqb platform "win32".

(** [argv.find((arg) => arg.startsWith('clozerai://'))] *)
Definition protocolArg_of (argv : list string) : option string :=
  find (fun arg => startsWith arg protocol_prefix) argv.

(** The handler of [second-instance]. *)
Definition second_instance (argv : list string) : M unit :=
  ((if isWindows then
      match protocolArg_of argv with
      | Some protocolArg =>
          if truthy protocolArg then handleProtocolUrl protocolArg
          else ret tt
      | None => ret tt
      end
    else ret tt) ;;
   s <- get ;;
   match mainWindow s with
   | Some win => set_mainWindow (Some (restore_and_focus win))
   | None => ret tt
   end)%handler.

(** The look at [process.argv] when the module is loaded. *)
Definition read_process_argv (argv : list string) : M unit :=
  if isWindows then
    match protocolArg_of argv with
    | Some protocolArg =>
        if truthy protocolArg then set_initialProtocolUrl (Some protocolArg)
        else ret tt
    | None => ret tt
    end
  else ret tt.

(** [createWindow], for the window state this file uses later: the
    window is shown at once only on Windows, content protection is on and
    mouse events are ignored. *)
Definition createWindow : M unit :=
  set_mainWindow
    (Some {| minimized := false; focused := false; visible := isWindows;
             contentProtection := true; ignoreMouseEvents := true |}).

(** The global shortcuts registered once the app is ready: accelerator
    and channel. *)
Definition shortcuts : list (string * string) :=
  if String.eqb platform "darwin" then
    [("Command+E", "ipc-toggle-hide");
     ("Command+H", "ipc-answer-question");
     ("Command+G", "ipc-what-to-ask");
     ("Command+K", "ipc-analyse-screen");
     ("Command+Backspace", "ipc-clear-messages");
     ("Command+Left", "ipc-move-window-left");
     ("Command+Right", "ipc-move-window-right")]
  else if isWindows then
    [("Ctrl+E", "ipc-toggle-hide");
     ("Ctrl+H", "ipc-answer-question");
     ("Ctrl+G", "ipc-what-to-ask");
     ("Ctrl+K", "ipc-analyse-screen");
     ("Ctrl+Backspace", "ipc-clear-messages");
     ("Ctrl+Left", "ipc-move-window-left");
     ("Ctrl+Right", "ipc-move-window-right")]
  else [].

End WithPlatform.

Definition double_quote : string := String (Ascii.ascii_of_nat 34) "".

(** The handler of [ready-to-show]. *)
Definition ready_to_show : M unit :=
  (s <- get ;;
   match mainWindow s with
   | None =>
       throw (Error (double_quote ++ "mainWindow" ++ double_quote
                     ++ " is not defined"))
   | Some win =>
       set_mainWindow
         (Some {| minimized := minimized win; focused := focused win;
                  visible := true;
                  contentProtection := contentProtection win;
                  ignoreMouseEvents := ignoreMouseEvents win |}) ;;
       match initialProtocolUrl s with
       | Some url =>
           if truthy url then
             handleProtocolUrl url ;; set_initialProtocolUrl None
           else ret tt
       | None => ret tt
       end
   end)%handler.

(** The handler of [closed]. *)
Definition closed : M unit := set_mainWindow None.

(** The callback of every global shortcut. *)
Definition shortcut_pressed (channel : string) : M unit :=
  (s <- get ;;
   match mainWindow s with
   | Some _ => send channel []
   | None => ret tt
   end)%handler.

(** The handler of [ipc-toggle-content-protection]. *)
Definition toggle_content_protection (disabled : bool) : M unit :=
  (s <- get ;;
   match mainWindow s with
   | Some win =>
       set_mainWindow
         (Some {| minimized := minimized win; focused := focused win;
                  visible := visible win;
                  contentProtection := negb disabled;
                  ignoreMouseEvents := ignoreMouseEvents win |}) ;;
       log ("Content protection " ++
            if disabled then "disabled" else "enabled") None
   | None => ret tt
   end)%handler.

(** The accelerator of a shortcut without its modifier key. *)
Definition key_of (accelerator : string) : string :=
  match index 0 "+" accelerator with
  | Some i => drop (S i) accelerator
  | None => accelerator
  end.

(** What reaches the handlers above, and a run of them; a handler that
    throws keeps what it did before. *)
Inductive ShellEvent : Type :=
| OpenUrl (url : string)
| SecondInstance (argv : list string)
| CreateWindow
| ReadyToShow
| Closed
| Shortcut (channel : string)
| ToggleContentProtection (disabled : bool).

Definition shell_step (platform : string) (ev : ShellEvent) : M unit :=
  match ev with
  | OpenUrl url => handleProtocolUrl url
  | SecondInstance argv => second_instance platform argv
  | CreateWindow => createWindow platform
  | ReadyToShow => ready_to_show
  | Closed => closed
  | Shortcut channel => shortcut_pressed channel
  | ToggleContentProtection disabled => toggle_content_protection disabled
  end.

Fixpoint shell_run (platform : string) (evs : list ShellEvent) (s : State)
    : State :=
  match evs with
  | [] => s
  | ev :: evs' => shell_run platform evs' (snd (shell_step platform ev s))
  end.

Definition turns_protection_off (ev : ShellEvent) : bool :=
  match ev with
  | ToggleContentProtection disabled => disabled
  | _ => false
  end.

(** The window, when there is one, has content protection on. *)
Definition protected (s : State) : Prop :=
  match mainWindow s with
  | Some win => contentProtection win = true
  | None => True
  end.

(** The stored URL, when there is one, starts with the prefix. *)
Definition stored_url_valid (s : State) : Prop :=
  match initialProtocolUrl s with
  | Some url => startsWith url protocol_prefix = true
  | None => True
  end.

End Shell.

(** ** Sample data *)

(** A Linux host on which nothing ever rejects. *)
Definition linux_host : Main.Host :=
  {| Main.platform := "linux";
     Main.start_rejects := fun _ _ _ => None;
     Main.cleanup_rejects := fun _ => None |}.

(** A paid, extendable session that ends at [ends] and already has its
    credential; the time left it reports is the server's, a little under
    one minute. *)
Definition sample_session (ends : Z) : CallSession.t :=
  {| CallSession.userId := Some "user-1";
     CallSession.id := "session-1";
     CallSession.company := "Acme";
     CallSession.language := "en";
     CallSession.jobDescription := "";
     CallSession.shortJobDescription := "";
     CallSession.extraContext := "";
     CallSession.createdAt := 0;
     CallSession.activatedAt := Some 0%Z;
     CallSession.endsAt := Some ends;
     CallSession.trial := false;
     CallSession.resumeId := None;
     CallSession.speechmaticsApiKey := Some "key-1";
     CallSession.simpleLanguage := false;
     CallSession.extended := 0;
     CallSession.saveTranscription := true;
     CallSession.loadingSummary := false;
     CallSession.errorSummary := None;
     CallSession.deleted := false;
     CallSession.workspaceId := None;
     CallSession.expired := false;
     CallSession.timeLeft := Some 59999%Z;
     CallSession.canExtend := true |}.

(** The hook over the modelled buffer, both adapters recording, with 60
    seconds left on the local clock and "hi" in the input box. *)
Definition sample_state : State (list Buffer.TranscriptEntry) :=
  {| callSession := Some (sample_session 100000);
     generateSpeechmaticsSessionLoading := false;
     audioTapStatus := RECORDING;
     isRecordingMicrophone := true;
     messages := [];
     streaming := false;
     chatInput := "hi";
     now := 40000;
     hasAutoExtended := false;
     hasChatActivitySinceLastExtension := true;
     combinedTranscript := [];
     calls := [] |}.

Definition sample_generate (n : nat) : JsError + CallSession.t :=
  inr (sample_session 100000).

(** Time left 59999, 60000, 59999, 60000 ms: at the threshold and just
    under it, never above it. *)
Definition hovering_inputs : list Input :=
  [Tick 40001; Refetch (Some (sample_session 100001)); Tick 40002;
   Refetch (Some (sample_session 100002))].

(** Time left 59999, 59999, 60001, 59999 ms, with a chat turn after the
    first renewal. *)
Definition flapping_inputs : list Input :=
  [Tick 40001; Generate ai_help; Refetch (Some (sample_session 100002));
   Tick 40003].

(** Fifteen turns: a user turn with a screenshot and its answer, seven
    times, then one more user turn with a screenshot. *)
Definition sample_user_turn : Message :=
  {| role := user; content := "look";
     data := Some {| task := None; imageUrl := Some "data:image/png" |} |}.

Definition sample_answer : Message :=
  {| role := assistant; content := "seen"; data := None |}.

Definition fifteen_turns : list Message :=
  (List.concat (repeat [sample_user_turn; sample_answer] 7)
   ++ [sample_user_turn])%list.

(** The sample hook with the chat-activity flag off, and with no
    session. *)
Definition idle_state : State (list Buffer.TranscriptEntry) :=
  with_hasChatActivity false sample_state.

Definition no_session_state : State (list Buffer.TranscriptEntry) :=
  with_callSession None sample_state.

(** A macOS host on which nothing ever rejects. *)
Definition mac_host : Main.Host :=
  {| Main.platform := "darwin";
     Main.start_rejects := fun _ _ _ => None;
     Main.cleanup_rejects := fun _ => None |}.

Definition sample_config : Main.AudioTapConfig :=
  {| Main.speechmaticsApiKey := "key-1"; Main.language := "en" |}.

(** * Facts *)

Local Open Scope nat_scope.
Local Open Scope list_scope.

(** ** The audio-tap slot *)

Section MainFacts.
Import Main.

Ltac run_handler :=
  unfold ipc_start_audio_tap, ipc_stop_audio_tap, native_impl, cleanup_events,
    await_cleanup, await_start, console_log, emit, set_audioTapInstance,
    isWindows, bind, try_catch, get, modify, ret, throw;
  simpl.

Lemma ipc_start_audio_tap_run (host : Host) (cfg : AudioTapConfig) (w : World) :
  ipc_start_audio_tap host cfg w =
  let pre :=
    match audioTapInstance w with
    | Some h =>
        ConsoleLog
          "Cleaning up existing audio tap instance before starting new one"
          None
        :: cleanup_events host h "Existing audio tap cleanup completed"
             "Error during audio tap cleanup:"
    | None => []
    end in
  match native_impl host with
  | None =>
      (inl (unsupported_platform host),
       {| audioTapInstance := None; starts := starts w;
          trace := trace w ++ pre ++
            [ConsoleLog "Error starting audio tap"
               (Some (unsupported_platform host))] |})
  | Some impl =>
      match start_rejects host impl (starts w) cfg with
      | Some e =>
          (inl e,
           {| audioTapInstance := None; starts := S (starts w);
              trace := trace w ++ pre ++
                [StartCalled impl cfg; StartSettled impl (inl e);
                 ConsoleLog "Error starting audio tap" (Some e)] |})
      | None =>
          (inr RECORDING,
           {| audioTapInstance := Some (starts w); starts := S (starts w);
              trace := trace w ++ pre ++
                [StartCalled impl cfg; StartSettled impl (inr (starts w))] |})
      end
  end.
Proof.
  destruct w as [slot n tr]. run_handler.
  destruct slot as [h|]; simpl;
    [destruct (cleanup_rejects host h); simpl|];
    destruct (String.eqb (platform host) "darwin"); simpl;
    try destruct (String.eqb (platform host) "win32"); simpl;
    try destruct (start_rejects host _ n cfg); simpl;
    repeat rewrite <- app_assoc; simpl; try rewrite app_nil_r; reflexivity.
Qed.

Lemma ipc_stop_audio_tap_run (host : Host) (w : World) :
  ipc_stop_audio_tap host w =
  (inr IDLE,
   match audioTapInstance w with
   | Some h =>
       {| audioTapInstance := None; starts := starts w;
          trace := trace w ++
            ConsoleLog "Stopping audio tap..." None
            :: cleanup_events host h "Audio tap stopped successfully"
                 "Error stopping audio tap:" |}
   | None => w
   end).
Proof.
  destruct w as [slot n tr]. run_handler.
  destruct slot as [h|]; simpl; [|reflexivity].
  destruct (cleanup_rejects host h); simpl;
    repeat rewrite <- app_assoc; reflexivity.
Qed.

Lemma live_app (a b : list Event) :
  live (a ++ b) = fold_left live_step b (live a).
Proof. unfold live. apply fold_left_app. Qed.

Lemma remove_only (h : Handle) : remove Nat.eq_dec h [h] = [].
Proof. simpl. destruct (Nat.eq_dec h h); congruence. Qed.

Lemma added_app (tr new : list Event) : added tr (tr ++ new) = new.
Proof.
  unfold added. rewrite skipn_app, skipn_all, Nat.sub_diag. reflexivity.
Qed.

(** Every prefix of [tr ++ new] is a prefix of [tr], or [tr] followed by a
    prefix of [new]. *)
Lemma at_most_one_app (tr new : list Event) :
  (forall k, List.length (live (firstn k tr)) <= 1) ->
  at_most_one_from (live tr) new ->
  forall k, List.length (live (firstn k (tr ++ new))) <= 1.
Proof.
  intros Htr Hnew k. rewrite firstn_app.
  destruct (Nat.le_gt_cases k (List.length tr)) as [Hk|Hk].
  - replace (k - List.length tr) with 0 by lia.
    rewrite firstn_O, app_nil_r. apply Htr.
  - rewrite firstn_all2 by lia. rewrite live_app.
    specialize (Htr (List.length tr)). rewrite firstn_all in Htr.
    generalize dependent (live tr). generalize (k - List.length tr).
    induction new as [|e new IH]; intros j l Hl Hsafe.
    + rewrite firstn_nil. exact Hl.
    + destruct j as [|j]; [exact Hl|].
      simpl. destruct Hsafe as [He Hrest]. apply IH; assumption.
Qed.

Lemma slot_is_live_init : slot_is_live init.
Proof.
  split; [reflexivity|]. intros k. simpl. rewrite firstn_nil. simpl. lia.
Qed.

Ltac live_events h :=
  simpl; try (destruct (Nat.eq_dec h h); [|congruence]); simpl;
  repeat split; try reflexivity; try lia.

Lemma slot_is_live_start (host : Host) (cfg : AudioTapConfig) (w : World) :
  slot_is_live w -> slot_is_live (snd (ipc_start_audio_tap host cfg w)).
Proof.
  intros [Hlive Hpast]. rewrite ipc_start_audio_tap_run.
  unfold held in Hlive. unfold cleanup_events.
  destruct (audioTapInstance w) as [h|];
    [destruct (cleanup_rejects host h)|];
    destruct (native_impl host) as [impl|]; cbv zeta;
    try destruct (start_rejects host impl (starts w) cfg);
    (split;
     [ cbn [snd trace]; rewrite live_app, Hlive; unfold held;
       try live_events h; live_events 0
     | cbn [snd trace]; apply at_most_one_app; [exact Hpast|];
       rewrite Hlive; try live_events h; live_events 0 ]).
Qed.

Lemma slot_is_live_stop (host : Host) (w : World) :
  slot_is_live w -> slot_is_live (snd (ipc_stop_audio_tap host w)).
Proof.
  intros [Hlive Hpast]. rewrite ipc_stop_audio_tap_run.
  unfold held in Hlive. unfold cleanup_events.
  destruct (audioTapInstance w) as [h|] eqn:Hslot; cbn [snd].
  - destruct (cleanup_rejects host h);
      (split;
       [ cbn [trace]; rewrite live_app, Hlive; live_events h
       | cbn [trace]; apply at_most_one_app; [exact Hpast|];
         rewrite Hlive; live_events h ]).
  - split; [|exact Hpast]. unfold held. rewrite Hslot. exact Hlive.
Qed.

Lemma slot_is_live_serve (host : Host) (rs : list Request) (w : World) :
  slot_is_live w -> slot_is_live (serve host rs w).
Proof.
  revert w. induction rs as [|r rs IH]; intros w Hw; [exact Hw|].
  simpl. apply IH. destruct r as [cfg|]; simpl.
  - apply slot_is_live_start, Hw.
  - apply slot_is_live_stop, Hw.
Qed.

(** The serial case of C1 (for invocations that overlap, see
    [overlapping_starts_leave_two_live_instances]). For every sequence of
    requests served one after the other from
    the initial state (any mix of starts and stops, so in particular every
    sequence of [requestStart] calls) and one more [ipc-start-audio-tap]:
    the handler only adds events; at every instant of the whole run at most
    one instance is live, and at the end the slot holds exactly the live
    instance; when the slot was occupied by [h], the events added are
    [pre], the call of [h.cleanup()], its settlement, then [post], where
    [pre] holds no native start (so every start comes after the settlement),
    [cleanup()] is not called again, and a rejection of the cleanup is
    logged with [console.error]; when the slot was empty no cleanup is
    called; the result is decided by the native start alone (a rejected
    cleanup never reaches the caller): the error thrown is the one of the
    start, and then the slot is empty, otherwise the status is RECORDING
    and the slot holds the new instance. *)
Theorem requestStart_single_live_instance
    (host : Host) (rs : list Request) (cfg : AudioTapConfig) :
  let w := serve host rs init in
  let r := fst (ipc_start_audio_tap host cfg w) in
  let w' := snd (ipc_start_audio_tap host cfg w) in
  let new := added (trace w) (trace w') in
  trace w' = trace w ++ new /\
  (forall k, List.length (live (firstn k (trace w'))) <= 1) /\
  live (trace w') = held w' /\
  match audioTapInstance w with
  | Some h =>
      exists pre post,
        new = pre ++ CleanupCalled h
                     :: CleanupSettled h (cleanup_rejects host h) :: post /\
        existsb is_start_call pre = false /\
        existsb is_cleanup_call post = false /\
        forall e, cleanup_rejects host h = Some e ->
                  In (ConsoleError "Error during audio tap cleanup:" e) post
  | None => existsb is_cleanup_call new = false
  end /\
  r = match native_impl host with
      | Some impl =>
          match start_rejects host impl (starts w) cfg with
          | Some e => inl e
          | None => inr RECORDING
          end
      | None => inl (unsupported_platform host)
      end /\
  match r with
  | inr _ =>
      audioTapInstance w' = Some (starts w) /\
      exists impl, In (StartSettled impl (inr (starts w))) new
  | inl e =>
      audioTapInstance w' = None /\
      (e = unsupported_platform host \/
       exists impl, In (StartSettled impl (inl e)) new)
  end.
Proof.
  intros w r w' new.
  assert (Hw : slot_is_live w)
    by (apply slot_is_live_serve, slot_is_live_init).
  assert (Hw' : slot_is_live w') by (apply slot_is_live_start, Hw).
  destruct Hw' as [Hheld Hall].
  split; [|split; [exact Hall|split; [exact Hheld|]]];
    subst r new w'; clear Hheld Hall Hw;
    rewrite ipc_start_audio_tap_run; generalize w; clear w; intros w;
    unfold cleanup_events.
  - destruct (native_impl host) as [impl|]; cbv zeta;
      try destruct (start_rejects host impl (starts w) cfg);
      cbn [snd trace]; rewrite added_app; reflexivity.
  - destruct (audioTapInstance w) as [h|];
      [destruct (cleanup_rejects host h) as [ce|] eqn:Hce|];
      destruct (native_impl host) as [impl|]; cbv zeta;
      try destruct (start_rejects host impl (starts w) cfg);
      cbn [fst snd trace audioTapInstance]; rewrite added_app;
      (split; [|split; [reflexivity|]]);
      try (simpl; reflexivity);
      try (split; [reflexivity|]);
      try (eexists [_], _; split; [reflexivity|]; simpl;
           split; [reflexivity|]; split; [reflexivity|];
           intros e He; inversion He; subst; auto; fail);
      simpl;
      try (match goal with i : Impl |- _ => right; exists i; tauto end);
      eauto 8.
Qed.

(** C2. [ipc-stop-audio-tap] twice in a row, from any state of the main
    process: both calls return IDLE (never an error); after the first the
    slot is empty and the second changes nothing; with an empty slot the
    first call changes nothing either (no event, so no cleanup); with [h]
    in the slot the first call adds the call of [h.cleanup()], its
    settlement and one log line, the slot is cleared also when the cleanup
    rejects, and the rejection is logged with [console.error]; over both
    calls [cleanup()] is called at most once. *)
Theorem requestStop_idempotent (host : Host) (w : World) :
  let r1 := fst (ipc_stop_audio_tap host w) in
  let w1 := snd (ipc_stop_audio_tap host w) in
  let r2 := fst (ipc_stop_audio_tap host w1) in
  let w2 := snd (ipc_stop_audio_tap host w1) in
  r1 = inr IDLE /\ r2 = inr IDLE /\
  audioTapInstance w1 = None /\ w2 = w1 /\
  match audioTapInstance w with
  | None => w1 = w
  | Some h =>
      exists line,
        added (trace w) (trace w1) =
          [ConsoleLog "Stopping audio tap..." None; CleanupCalled h;
           CleanupSettled h (cleanup_rejects host h); line] /\
        line = match cleanup_rejects host h with
               | Some e => ConsoleError "Error stopping audio tap:" e
               | None => ConsoleLog "Audio tap stopped successfully" None
               end
  end /\
  List.length (filter is_cleanup_call (added (trace w) (trace w2))) <= 1.
Proof.
  intros r1 w1 r2 w2.
  assert (H1 : audioTapInstance w1 = None).
  { subst w1. rewrite ipc_stop_audio_tap_run.
    destruct (audioTapInstance w) eqn:E; simpl; auto. }
  assert (H2 : w2 = w1).
  { subst w2. rewrite ipc_stop_audio_tap_run, H1. reflexivity. }
  split; [subst r1; rewrite ipc_stop_audio_tap_run; reflexivity|].
  split; [subst r2; rewrite ipc_stop_audio_tap_run; reflexivity|].
  split; [exact H1|]. split; [exact H2|].
  rewrite H2. subst w1. clear. rewrite ipc_stop_audio_tap_run.
  unfold cleanup_events.
  destruct (audioTapInstance w) as [h|] eqn:E; cbn [snd trace].
  - rewrite added_app. split; [eexists; split; reflexivity|].
    destruct (cleanup_rejects host h); simpl; lia.
  - split; [reflexivity|]. unfold added. rewrite skipn_all. simpl. lia.
Qed.

(** C9. On a host whose platform is neither ['darwin'] nor ['win32'],
    after any sequence of requests served from the initial state: the slot
    is empty, and [ipc-start-audio-tap] throws the unsupported-platform
    error, whose message names the platform, to its caller; all it does is
    log that error, the slot stays empty, and no native start was ever
    called or settled in the whole run, nor any cleanup. *)
Theorem unsupported_platform_start_fails
    (host : Host) (rs : list Request) (cfg : AudioTapConfig)
    (Hmac : String.eqb (platform host) "darwin" = false)
    (Hwin : String.eqb (platform host) "win32" = false) :
  let w := serve host rs init in
  let r := fst (ipc_start_audio_tap host cfg w) in
  let w' := snd (ipc_start_audio_tap host cfg w) in
  audioTapInstance w = None /\
  r = inl (unsupported_platform host) /\
  message (unsupported_platform host) =
    ("Unsupported platform: " ++ platform host ++
     ". ClozerAI Desktop only supports macOS and Windows.")%string /\
  added (trace w) (trace w') =
    [ConsoleLog "Error starting audio tap"
       (Some (unsupported_platform host))] /\
  audioTapInstance w' = None /\
  live (trace w') = [] /\
  existsb is_start_call (trace w') = false /\
  existsb is_start_settled (trace w') = false /\
  existsb is_cleanup_call (trace w') = false.
Proof.
  intros w r w'.
  assert (Himpl : native_impl host = None).
  { unfold native_impl, isWindows. rewrite Hmac, Hwin. reflexivity. }
  assert (Hquiet : forall rs0 w0,
             audioTapInstance w0 = None ->
             existsb is_start_call (trace w0) = false ->
             existsb is_start_settled (trace w0) = false ->
             existsb is_cleanup_call (trace w0) = false ->
             let w1 := serve host rs0 w0 in
             audioTapInstance w1 = None /\
             existsb is_start_call (trace w1) = false /\
             existsb is_start_settled (trace w1) = false /\
             existsb is_cleanup_call (trace w1) = false).
  { induction rs0 as [|q rs0 IH]; intros w0 Hs Ha Hb Hc; [simpl; auto|].
    simpl. apply IH; destruct q as [c|]; simpl;
      rewrite ?ipc_start_audio_tap_run, ?ipc_stop_audio_tap_run, ?Himpl, ?Hs;
      cbn [snd trace audioTapInstance]; auto;
      rewrite existsb_app, ?Ha, ?Hb, ?Hc; reflexivity. }
  destruct (Hquiet rs init) as (Hs & Ha & Hb & Hc); try reflexivity.
  fold w in Hs, Ha, Hb, Hc.
  assert (Hlive : slot_is_live w)
    by (apply slot_is_live_serve, slot_is_live_init).
  destruct Hlive as [Hlive _]. unfold held in Hlive. rewrite Hs in Hlive.
  subst r w'. rewrite ipc_start_audio_tap_run, Himpl, Hs. cbv zeta.
  cbn [fst snd trace audioTapInstance]. rewrite added_app, live_app, Hlive.
  rewrite !existsb_app, Ha, Hb, Hc. simpl. repeat split; reflexivity.
Qed.

(** C9 on a Linux host, after one start and one stop. *)
Lemma unsupported_platform_start_fails_on_linux :
  String.eqb (platform linux_host) "darwin" = false /\
  String.eqb (platform linux_host) "win32" = false /\
  fst (ipc_start_audio_tap linux_host
         {| speechmaticsApiKey := "key"; language := "en" |}
         (serve linux_host
            [RequestStart {| speechmaticsApiKey := "key"; language := "sl" |};
             RequestStop] init)) =
  inl (Error "Unsupported platform: linux. ClozerAI Desktop only supports macOS and Windows.").
Proof.
  split; [reflexivity|]. split; [reflexivity|].
  exact (proj1 (proj2 (unsupported_platform_start_fails linux_host
    [RequestStart {| speechmaticsApiKey := "key"; language := "sl" |};
     RequestStop]
    {| speechmaticsApiKey := "key"; language := "en" |}
    eq_refl eq_refl))).
Defined.

End MainFacts.

(** ** The combined transcript buffer *)

Section BufferFacts.
Import Buffer.

(** Mapping with a function that keeps [p] and fixes what satisfies [p]
    does not change what [filter p] keeps. *)
Lemma filter_map_fixed {A} (p : A -> bool) (f : A -> A) (l : list A) :
  (forall x, p (f x) = p x) -> (forall x, p x = true -> f x = x) ->
  filter p (map f l) = filter p l.
Proof.
  intros Hp Hf. induction l as [|x l IH]; [reflexivity|].
  simpl. rewrite Hp. destruct (p x) eqn:Hx; [rewrite Hf by exact Hx|];
    rewrite IH; reflexivity.
Qed.

Lemma Source_eqb_eq (a b : Source) : Source_eqb a b = true <-> a = b.
Proof. destruct a, b; simpl; split; congruence. Qed.

Lemma open_partial_of_other (src src' : Source) (e : TranscriptEntry) :
  src <> src' -> open_partial_of src e = true -> open_partial_of src' e = false.
Proof.
  unfold open_partial_of. intros Hne H.
  apply andb_true_iff in H. destruct H as [Hp Hs].
  apply Source_eqb_eq in Hs. rewrite Hp. simpl.
  destruct (Source_eqb (source e) src') eqn:E; [|reflexivity].
  apply Source_eqb_eq in E. congruence.
Qed.

Lemma existsb_partials (src : Source) (b : list TranscriptEntry) :
  existsb (open_partial_of src) b = negb (List.length (partials_of src b) =? 0).
Proof.
  unfold partials_of. induction b as [|x b IH]; [reflexivity|].
  simpl. destruct (open_partial_of src x); simpl; [reflexivity|exact IH].
Qed.

Section Replace.
Variables (src : Source) (e : TranscriptEntry).
Hypothesis He : open_partial_of src e = true.

Let replace (x : TranscriptEntry) : TranscriptEntry :=
  if open_partial_of src x then e else x.

Lemma replace_same_source (src' : Source) (x : TranscriptEntry) :
  open_partial_of src' (replace x) = open_partial_of src' x.
Proof.
  unfold replace. destruct (open_partial_of src x) eqn:Hx; [|reflexivity].
  destruct (Source_eqb src src') eqn:E.
  - apply Source_eqb_eq in E. subst src'. rewrite He, Hx. reflexivity.
  - assert (src <> src') by (intros ->; destruct src'; discriminate).
    rewrite !(open_partial_of_other src src') by assumption. reflexivity.
Qed.

Lemma partials_of_replace (b : list TranscriptEntry) :
  partials_of src (map replace b) = map (fun _ => e) (partials_of src b).
Proof.
  unfold partials_of. induction b as [|x b IH]; [reflexivity|].
  simpl. rewrite replace_same_source.
  destruct (open_partial_of src x) eqn:Hx; simpl; rewrite IH; [|reflexivity].
  unfold replace. rewrite Hx. reflexivity.
Qed.

Lemma partials_of_replace_other (src' : Source) (b : list TranscriptEntry) :
  src <> src' -> partials_of src' (map replace b) = partials_of src' b.
Proof.
  intros Hne. apply filter_map_fixed; [apply replace_same_source|].
  intros x Hx. unfold replace.
  destruct (open_partial_of src x) eqn:Hx'; [|reflexivity].
  rewrite (open_partial_of_other src src') in Hx by assumption. discriminate.
Qed.

Lemma others_replace (b : list TranscriptEntry) :
  others src (map replace b) = others src b.
Proof.
  apply filter_map_fixed.
  - intros x. rewrite replace_same_source. reflexivity.
  - intros x Hx. unfold replace.
    destruct (open_partial_of src x); [discriminate|reflexivity].
Qed.

Lemma finals_replace (b : list TranscriptEntry) :
  finals (map replace b) = finals b.
Proof.
  assert (Hp : isPartial e = true).
  { unfold open_partial_of in He. apply andb_true_iff in He. tauto. }
  apply filter_map_fixed; intros x; unfold replace;
    destruct (open_partial_of src x) eqn:Hx; try reflexivity;
    unfold open_partial_of in Hx; apply andb_true_iff in Hx;
    destruct Hx as [Hx _]; rewrite Hx, ?Hp; [reflexivity|discriminate].
Qed.

End Replace.

Lemma partials_of_others (src src' : Source) (b : list TranscriptEntry) :
  partials_of src' (others src b) =
  if Source_eqb src src' then [] else partials_of src' b.
Proof.
  unfold partials_of, others. induction b as [|x b IH].
  - destruct (Source_eqb src src'); reflexivity.
  - simpl. destruct (open_partial_of src x) eqn:Hx; simpl.
    + rewrite IH. destruct (Source_eqb src src') eqn:E; [reflexivity|].
      assert (src <> src') by (intros ->; destruct src'; discriminate).
      rewrite (open_partial_of_other src src') by assumption. reflexivity.
    + rewrite IH. destruct (Source_eqb src src') eqn:E.
      * apply Source_eqb_eq in E. subst src'. rewrite Hx. reflexivity.
      * reflexivity.
Qed.

Lemma finals_others (src : Source) (b : list TranscriptEntry) :
  finals (others src b) = finals b.
Proof.
  unfold finals, others. induction b as [|x b IH]; [reflexivity|].
  simpl. unfold open_partial_of at 1.
  destruct (isPartial x) eqn:Hp; simpl.
  - destruct (Source_eqb (source x) src); simpl; rewrite ?Hp; exact IH.
  - rewrite Hp. simpl. rewrite IH. reflexivity.
Qed.

Lemma open_partial_of_new (src : Source) (txt : string) :
  open_partial_of src {| source := src; text := txt; isPartial := true |}
  = true.
Proof. unfold open_partial_of. simpl. destruct src; reflexivity. Qed.

Lemma partials_of_app (src : Source) (a b : list TranscriptEntry) :
  partials_of src (a ++ b) = partials_of src a ++ partials_of src b.
Proof. apply filter_app. Qed.

(** One event keeps "at most one open partial per source". *)
Lemma addTranscript_one_partial (txt : string) (src : Source) (partial : bool)
    (b : list TranscriptEntry) :
  (forall s, List.length (partials_of s b) <= 1) ->
  forall s, List.length (partials_of s (addTranscript txt src partial b)) <= 1.
Proof.
  intros Hb s. unfold addTranscript. destruct partial.
  - pose proof (open_partial_of_new src txt) as He.
    destruct (existsb (open_partial_of src) b) eqn:Hex.
    + destruct (Source_eqb src s) eqn:E.
      * apply Source_eqb_eq in E. subst s.
        rewrite partials_of_replace by exact He.
        rewrite length_map. apply Hb.
      * assert (src <> s) by (intros ->; destruct s; discriminate).
        rewrite partials_of_replace_other by assumption. apply Hb.
    + rewrite partials_of_app, length_app.
      destruct (Source_eqb src s) eqn:E.
      * apply Source_eqb_eq in E. subst s.
        rewrite existsb_partials in Hex.
        destruct (List.length (partials_of src b)); [|discriminate].
        unfold partials_of at 1. simpl. rewrite He. simpl. lia.
      * assert (Hno : open_partial_of s
                   {| source := src; text := txt; isPartial := true |} = false).
        { apply (open_partial_of_other src s); [|exact He].
          intros ->; destruct s; discriminate. }
        unfold partials_of at 2. simpl. rewrite Hno. simpl.
        specialize (Hb s). lia.
  - fold (others src b).
    rewrite partials_of_app, partials_of_others, length_app.
    destruct (Source_eqb src s); simpl; [lia|].
    specialize (Hb s). lia.
Qed.

Lemma run_snoc (evs : list TranscriptEvent) (ev : TranscriptEvent) :
  run (evs ++ [ev]) = feed (run evs) ev.
Proof. unfold run. rewrite fold_left_app. reflexivity. Qed.

Lemma run_one_partial (evs : list TranscriptEvent) (s : Source) :
  List.length (partials_of s (run evs)) <= 1.
Proof.
  revert s. induction evs as [|ev evs IH] using rev_ind; intros s.
  - simpl. lia.
  - rewrite run_snoc. unfold feed. apply addTranscript_one_partial, IH.
Qed.

(** C8. For every sequence of [addTranscript] events fed to the empty
    buffer, with [b] the buffer they leave: each source has at most one
    open partial entry in [b]; a further partial from [src] leaves exactly
    one open partial of [src], the new one, changes no other entry, and
    takes the place of the previous partial when there was one (the buffer
    keeps its length) or is added otherwise; a further final from [src]
    leaves no open partial of [src] and comes last, after all the other
    entries; no event changes or drops the final entries already there; and
    the three events partial "hel", partial "hello", final "hello there" of
    the microphone leave the combined string "hello there", whatever
    separates entries. *)
Theorem transcript_one_partial_per_source
    (evs : list TranscriptEvent) (src : Source) (txt sep : string) :
  let b := run evs in
  let partial := {| source := src; text := txt; isPartial := true |} in
  let final := {| source := src; text := txt; isPartial := false |} in
  (forall s, List.length (partials_of s b) <= 1) /\
  partials_of src (addTranscript txt src true b) = [partial] /\
  others src (addTranscript txt src true b) = others src b /\
  List.length (addTranscript txt src true b) =
    (if existsb (open_partial_of src) b
     then List.length b else S (List.length b)) /\
  partials_of src (addTranscript txt src false b) = [] /\
  addTranscript txt src false b = others src b ++ [final] /\
  (forall ev, finals (feed b ev) =
              finals b ++
              if ev_partial ev then []
              else [{| source := ev_source ev; text := ev_text ev;
                       isPartial := false |}]) /\
  getCombinedTranscriptString sep
    (run [ {| ev_text := "hel"; ev_source := microphone; ev_partial := true |};
           {| ev_text := "hello"; ev_source := microphone;
              ev_partial := true |};
           {| ev_text := "hello there"; ev_source := microphone;
              ev_partial := false |} ])
  = "hello there"%string.
Proof.
  intros b partial final.
  pose proof (run_one_partial evs) as Hone. fold b in Hone.
  pose proof (open_partial_of_new src txt) as He. fold partial in He.
  split; [exact Hone|].
  split; [|split; [|split; [|split; [|split; [|split]]]]].
  - unfold addTranscript. fold partial.
    destruct (existsb (open_partial_of src) b) eqn:Hex.
    + rewrite partials_of_replace by exact He.
      rewrite existsb_partials in Hex. specialize (Hone src).
      destruct (partials_of src b) as [|x [|y l]]; simpl in *;
        [discriminate|reflexivity|lia].
    + rewrite partials_of_app. rewrite existsb_partials in Hex.
      destruct (partials_of src b); [|discriminate].
      unfold partials_of. simpl. rewrite He. reflexivity.
  - unfold addTranscript. fold partial.
    destruct (existsb (open_partial_of src) b).
    + apply others_replace, He.
    + unfold others. rewrite filter_app. simpl. rewrite He. simpl.
      apply app_nil_r.
  - unfold addTranscript.
    destruct (existsb (open_partial_of src) b).
    + apply length_map.
    + rewrite length_app. simpl. lia.
  - unfold addTranscript. fold (others src b).
    rewrite partials_of_app, partials_of_others.
    assert (Source_eqb src src = true) as -> by (destruct src; reflexivity).
    reflexivity.
  - reflexivity.
  - intros [t s p]. unfold feed, addTranscript. simpl. destruct p.
    + pose proof (open_partial_of_new s t) as Hs.
      destruct (existsb (open_partial_of s) b).
      * rewrite finals_replace by exact Hs. symmetry. apply app_nil_r.
      * unfold finals. rewrite filter_app. reflexivity.
    + fold (others s b). unfold finals at 1. rewrite filter_app.
      fold (finals (others s b)). rewrite finals_others. reflexivity.
  - unfold getCombinedTranscriptString. simpl. reflexivity.
Qed.

End BufferFacts.

(** ** The hook *)

Section HookFacts.
Context {B : Type} {buffer : CombinedTranscript B}.

(** Handlers are run by value, so that a setter meets a record and not
    another setter. *)
Ltac run_hook :=
  cbv [handleGenerateResponse handleGenerateResponseWithScreenshot
       handleSessionExtended generateSpeechmaticsSession
       audioTap_onFinal audioTap_onPartial microphone_onFinal
       microphone_onPartial addToCombinedTranscript
       prepareMessagesForNewMessage appendAndSave append setMessages stop
       await call bind try_catch get modify ret throw
       with_callSession with_loading with_messages with_streaming
       with_chatInput with_now with_hasAutoExtended with_hasChatActivity
       with_combinedTranscript with_calls
       callSession generateSpeechmaticsSessionLoading audioTapStatus
       isRecordingMicrophone messages streaming chatInput now
       hasAutoExtended hasChatActivitySinceLastExtension combinedTranscript
       calls generate_content saved_calls switch_calls
       is_user is_direct_message role content data andb negb fst snd].

Lemma handleGenerateResponse_run (t : Task) (s : State B) :
  handleGenerateResponse t s =
  let turn := {| role := user; content := generate_content t s;
                 data := Some {| task := Some t; imageUrl := None |} |} in
  (inr tt,
   {| callSession := callSession s;
      generateSpeechmaticsSessionLoading :=
        generateSpeechmaticsSessionLoading s;
      audioTapStatus := audioTapStatus s;
      isRecordingMicrophone := isRecordingMicrophone s;
      messages := newMessages (messages s) ++ [turn];
      streaming := true;
      chatInput := if is_direct_message t then ""%string else chatInput s;
      now := now s;
      hasAutoExtended := hasAutoExtended s;
      hasChatActivitySinceLastExtension := true;
      combinedTranscript :=
        if is_direct_message t then combinedTranscript s
        else clearCombinedTranscript (combinedTranscript s);
      calls := calls s ++ [ChatStop; ChatAppend turn]
               ++ saved_calls s (generate_content t s)
               ++ if is_direct_message t then []
                  else [ClearCombinedTranscript] |}).
Proof.
  destruct s as [cs ld ats mic ms st ci nw hae hca ct cl].
  destruct cs as [cs|];
    [destruct (truthy (CallSession.id cs)) eqn:Hid;
     destruct (CallSession.saveTranscription cs) eqn:Hsave|];
    destruct t; run_hook; rewrite ?Hid, ?Hsave; run_hook;
    repeat rewrite <- app_assoc; reflexivity.
Qed.

Lemma handleGenerateResponseWithScreenshot_run
    (capture : JsError + string) (resize : string -> JsError + string)
    (s : State B) :
  handleGenerateResponseWithScreenshot capture resize s =
  let base (ms : list Message) (st : bool) (cl : list Call) :=
    {| callSession := callSession s;
       generateSpeechmaticsSessionLoading :=
         generateSpeechmaticsSessionLoading s;
       audioTapStatus := audioTapStatus s;
       isRecordingMicrophone := isRecordingMicrophone s;
       messages := ms; streaming := st;
       chatInput := chatInput s; now := now s;
       hasAutoExtended := hasAutoExtended s;
       hasChatActivitySinceLastExtension := true;
       combinedTranscript := combinedTranscript s;
       calls := calls s ++ ChatStop :: CaptureScreenshot :: cl |} in
  (inr tt,
   match capture with
   | inl e => base (messages s) false [ConsoleError "Listen error:" e]
   | inr dataUrl =>
       match resize dataUrl with
       | inl e =>
           base (messages s) false
             [ResizeImage dataUrl; ConsoleError "Listen error:" e]
       | inr resized =>
           let turn := {| role := user; content := screenshot_prompt;
                          data := Some {| task := None;
                                          imageUrl := Some resized |} |} in
           base (newMessages (messages s) ++ [turn]) true
             (ResizeImage dataUrl :: ChatAppend turn
              :: saved_calls s screenshot_prompt)
       end
   end).
Proof.
  destruct s as [cs ld ats mic ms st ci nw hae hca ct cl].
  destruct capture as [e|dataUrl];
    [run_hook; repeat rewrite <- app_assoc; reflexivity|].
  destruct (resize dataUrl) as [e|resized] eqn:Hresize;
    [run_hook; rewrite Hresize; run_hook;
     repeat rewrite <- app_assoc; reflexivity|].
  destruct cs as [cs|];
    [destruct (truthy (CallSession.id cs)) eqn:Hid;
     destruct (CallSession.saveTranscription cs) eqn:Hsave|];
    run_hook; rewrite Hresize; run_hook; rewrite ?Hid, ?Hsave; run_hook;
    repeat rewrite <- app_assoc; reflexivity.
Qed.

Lemma new_calls_app (s s' : State B) (cl : list Call) :
  calls s' = calls s ++ cl -> new_calls s s' = cl.
Proof.
  intros H. unfold new_calls. rewrite H, skipn_app, skipn_all, Nat.sub_diag.
  reflexivity.
Qed.

(** C10. On any state of the hook and for any text: the final-text
    callbacks of the system tap (source [share]) and of the microphone
    return without any call and leave the state as it is when the text is
    empty, and otherwise pass the text to [addTranscript] as a final entry
    of their source; the partial-text callbacks pass every text, the empty
    one included, to [addTranscript] as a partial entry of their source. *)
Theorem empty_final_dropped_partial_forwarded (txt : string) (s : State B) :
  let forwarded (src : Source) (partial : bool) (t : string) :=
    (@inr JsError unit tt,
     with_combinedTranscript
       (addTranscript t src partial (combinedTranscript s))
       (with_calls (calls s ++ [AddToCombinedTranscript t src partial]) s)) in
  audioTap_onFinal "" s = (inr tt, s) /\
  microphone_onFinal "" s = (inr tt, s) /\
  audioTap_onFinal txt s =
    (if truthy txt then forwarded share false txt else (inr tt, s)) /\
  microphone_onFinal txt s =
    (if truthy txt then forwarded microphone false txt else (inr tt, s)) /\
  audioTap_onPartial txt s = forwarded share true txt /\
  microphone_onPartial txt s = forwarded microphone true txt /\
  audioTap_onPartial "" s = forwarded share true ""%string /\
  microphone_onPartial "" s = forwarded microphone true ""%string.
Proof.
  intros forwarded. subst forwarded.
  destruct s as [cs ld ats mic ms st ci nw hae hca ct cl].
  destruct txt as [|c txt]; repeat split; reflexivity.
Qed.

(** C6, as the code has it. For every trigger and state,
    [handleGenerateResponse] returns normally and appends one user turn to
    the trimmed history; on a direct message its content is the fixed
    prefix "**Direct Message from Sales Agent**: " followed by the input
    text, and otherwise the input text when that is not empty, else the
    combined transcript string; the turn carries the trigger as its task
    and no image; [clearCombinedTranscript] is called, and the buffer
    cleared, exactly when the trigger is not a direct message (then the
    buffer is left as it was and the input box is emptied instead). *)
Theorem generate_appends_tagged_user_turn (t : Task) (s : State B) :
  let s' := snd (handleGenerateResponse t s) in
  let text :=
    match t with
    | direct_message =>
        ("**Direct Message from Sales Agent**: " ++ chatInput s)%string
    | _ =>
        if truthy (chatInput s) then chatInput s
        else getCombinedTranscriptString (combinedTranscript s)
    end in
  let turn := {| role := user; content := text;
                 data := Some {| task := Some t; imageUrl := None |} |} in
  fst (handleGenerateResponse t s) = inr tt /\
  messages s' = newMessages (messages s) ++ [turn] /\
  existsb is_ClearCombinedTranscript (new_calls s s')
    = negb (is_direct_message t) /\
  combinedTranscript s' =
    (if is_direct_message t then combinedTranscript s
     else clearCombinedTranscript (combinedTranscript s)) /\
  chatInput s' = (if is_direct_message t then ""%string else chatInput s).
Proof.
  intros s' text turn. subst s'. rewrite handleGenerateResponse_run.
  cbv zeta. cbn [fst snd messages combinedTranscript chatInput].
  assert (Htext : generate_content t s = text)
    by (subst text; destruct t; reflexivity).
  rewrite Htext. fold turn.
  split; [reflexivity|]. split; [reflexivity|].
  split; [|split; reflexivity].
  erewrite new_calls_app by reflexivity.
  unfold saved_calls.
  destruct (callSession s) as [cs|];
    [destruct (truthy (CallSession.id cs) && CallSession.saveTranscription cs)
    |];
    destruct t; reflexivity.
Qed.

(** C7. [handleGenerateResponseWithScreenshot] returns normally whatever
    happens. When the capture rejects, or the resize after it, the message
    list is the one before, and [append] and [saveAiAnswer] are not
    called; when both resolve, one user turn with the fixed prompt and the
    resized image is appended to the trimmed history. In every case the
    combined transcript is the one before and [clearCombinedTranscript] is
    not called. *)
Theorem screenshot_failure_appends_nothing
    (capture : JsError + string) (resize : string -> JsError + string)
    (s : State B) :
  let s' := snd (handleGenerateResponseWithScreenshot capture resize s) in
  let failed :=
    match capture with
    | inl _ => true
    | inr dataUrl => match resize dataUrl with inl _ => true | inr _ => false end
    end in
  fst (handleGenerateResponseWithScreenshot capture resize s) = inr tt /\
  (if failed then
     messages s' = messages s /\
     existsb is_ChatAppend (new_calls s s') = false /\
     existsb is_SaveAiAnswer (new_calls s s') = false
   else
     exists resized,
       messages s' =
         newMessages (messages s) ++
         [{| role := user; content := screenshot_prompt;
             data := Some {| task := None; imageUrl := Some resized |} |}]) /\
  combinedTranscript s' = combinedTranscript s /\
  existsb is_ClearCombinedTranscript (new_calls s s') = false.
Proof.
  intros s' failed. subst s' failed.
  rewrite handleGenerateResponseWithScreenshot_run. cbv zeta.
  split; [reflexivity|].
  destruct capture as [e|dataUrl]; [|destruct (resize dataUrl) as [e|r]];
    cbn [snd messages combinedTranscript];
    erewrite new_calls_app by reflexivity;
    repeat split; try reflexivity.
  - eexists. reflexivity.
  - unfold saved_calls.
    destruct (callSession s) as [cs|];
      [destruct (truthy (CallSession.id cs)
                 && CallSession.saveTranscription cs)|];
      reflexivity.
Qed.

Lemma length_mapi_from {X Y} (f : X -> nat -> Y) (i : nat) (l : list X) :
  List.length (mapi_from f i l) = List.length l.
Proof.
  revert i. induction l as [|x l IH]; intros i; simpl; [|rewrite IH];
    reflexivity.
Qed.

Lemma nth_error_mapi_from {X Y} (f : X -> nat -> Y) (i k : nat) (l : list X) :
  nth_error (mapi_from f i l) k =
  option_map (fun x => f x (i + k)) (nth_error l k).
Proof.
  revert i k. induction l as [|x l IH]; intros i k.
  - destruct k; reflexivity.
  - destruct k as [|k]; simpl.
    + rewrite Nat.add_0_r. reflexivity.
    + rewrite IH. replace (S i + k) with (i + S k) by lia. reflexivity.
Qed.

Lemma length_slice_last {X} (n : nat) (l : list X) :
  List.length (slice_last n l) = Nat.min n (List.length l).
Proof. unfold slice_last. rewrite length_skipn. lia. Qed.

Lemma nth_error_slice_last {X} (n k : nat) (l : list X) :
  nth_error (slice_last n l) k = nth_error l (List.length l - n + k).
Proof. unfold slice_last. apply nth_error_skipn. Qed.

Lemma has_image_without_image (m : Message) :
  has_image (without_image m) = false.
Proof. reflexivity. Qed.

(** What [newMessages] holds at each position: the message of the
    trimmed window, with its image removed when it is a user message with
    an image that is not in the last position. *)
Lemma nth_error_newMessages (ms : list Message) (k : nat) :
  nth_error (newMessages ms) k =
  option_map
    (fun m =>
       if is_user (role m) && has_image m
          && negb (k =? List.length (slice_last 10 ms) - 1)
       then without_image m else m)
    (nth_error ms (List.length ms - 10 + k)).
Proof.
  unfold newMessages. cbv zeta.
  rewrite nth_error_mapi_from, nth_error_slice_last. simpl.
  destruct (nth_error ms (List.length ms - 10 + k)) as [m|] eqn:Hm;
    [|reflexivity].
  simpl. unfold strip_older_image. cbv zeta.
  assert (Hlen : k < List.length (slice_last 10 ms)).
  { rewrite length_slice_last.
    assert (List.length ms - 10 + k < List.length ms)
      by (apply nth_error_Some; congruence).
    lia. }
  replace (Z.of_nat k =? Z.of_nat (List.length (slice_last 10 ms)) - 1)%Z
    with (k =? List.length (slice_last 10 ms) - 1); [reflexivity|].
  destruct (Nat.eqb_spec k (List.length (slice_last 10 ms) - 1));
    symmetry; [apply Z.eqb_eq|apply Z.eqb_neq]; lia.
Qed.

(** C5. When the history holds 15 turns, [handleGenerateResponse] leaves
    the retained window [newMessages] followed by the one new user turn,
    and the retained window has exactly 10 turns: its [i]-th turn is the
    [5 + i]-th of the history, with only its image removed when it is a
    user turn with an image that is not the last of the window, and
    unchanged otherwise (same role and content in both cases); a user turn of the window that still has an
    image is the last turn of the window, so no turn, user or not, is more
    recent in it; and a user turn of the window that is older than another
    user turn of the window has no image. *)
Theorem history_trimmed_to_last_ten (t : Task) (s : State B)
    (H15 : List.length (messages s) = 15) :
  let retained := newMessages (messages s) in
  (exists turn,
     messages (snd (handleGenerateResponse t s)) = retained ++ [turn]) /\
  List.length retained = 10 /\
  (forall i, i < 10 ->
     exists m m',
       nth_error (messages s) (5 + i) = Some m /\
       nth_error retained i = Some m' /\
       m' = (if is_user (role m) && has_image m && negb (i =? 9)
             then without_image m else m) /\
       role m' = role m /\ content m' = content m) /\
  (forall i m,
     nth_error retained i = Some m ->
     role m = user -> has_image m = true -> i = 9) /\
  (forall i j mi mj,
     i < j ->
     nth_error retained i = Some mi -> nth_error retained j = Some mj ->
     role mi = user -> role mj = user -> has_image mi = false).
Proof.
  intros retained.
  assert (Hwin : List.length (slice_last 10 (messages s)) = 10)
    by (rewrite length_slice_last, H15; reflexivity).
  assert (Hlen : List.length retained = 10).
  { subst retained. unfold newMessages. cbv zeta.
    rewrite length_mapi_from. exact Hwin. }
  assert (Hnth : forall k,
             nth_error retained k =
             option_map
               (fun m => if is_user (role m) && has_image m && negb (k =? 9)
                         then without_image m else m)
               (nth_error (messages s) (5 + k))).
  { intros k. subst retained. rewrite nth_error_newMessages, Hwin, H15.
    reflexivity. }
  assert (Hkeep : forall i m,
             nth_error retained i = Some m ->
             role m = user -> has_image m = true -> i = 9).
  { intros i m Hm Hrole Himg. rewrite Hnth in Hm.
    destruct (nth_error (messages s) (5 + i)) as [m0|]; [|discriminate].
    simpl in Hm.
    destruct (is_user (role m0) && has_image m0 && negb (i =? 9)) eqn:E;
      inversion Hm; subst m.
    - rewrite has_image_without_image in Himg. discriminate.
    - rewrite Hrole, Himg in E. simpl in E.
      apply negb_false_iff, Nat.eqb_eq in E. exact E. }
  split; [|split; [exact Hlen|split; [|split; [exact Hkeep|]]]].
  - rewrite handleGenerateResponse_run. cbv zeta. simpl. eexists.
    reflexivity.
  - intros i Hi.
    assert (Hsome : 5 + i < List.length (messages s)) by lia.
    apply nth_error_Some in Hsome.
    destruct (nth_error (messages s) (5 + i)) as [m|] eqn:Hm;
      [|congruence].
    exists m. eexists. split; [reflexivity|].
    rewrite Hnth, Hm. simpl. split; [reflexivity|]. split; [reflexivity|].
    destruct (is_user (role m) && has_image m && negb (i =? 9)); auto.
  - intros i j mi mj Hij Hi Hj Hri Hrj.
    destruct (has_image mi) eqn:Himg; [|reflexivity].
    assert (i = 9) by (eapply Hkeep; eassumption).
    assert (j < List.length retained)
      by (apply nth_error_Some; congruence).
    lia.
Qed.

Section Renewal.
Variable generate : nat -> JsError + CallSession.t.

Lemma handleSessionExtended_run (cs : CallSession.t) (s : State B) :
  handleSessionExtended generate cs s =
  let n := List.length (filter is_GenerateSpeechmaticsSession (calls s)) in
  let base (hca : bool) (cl : list Call) :=
    {| callSession := callSession s;
       generateSpeechmaticsSessionLoading :=
         generateSpeechmaticsSessionLoading s;
       audioTapStatus := audioTapStatus s;
       isRecordingMicrophone := isRecordingMicrophone s;
       messages := messages s; streaming := streaming s;
       chatInput := chatInput s; now := now s;
       hasAutoExtended := hasAutoExtended s;
       hasChatActivitySinceLastExtension := hca;
       combinedTranscript := combinedTranscript s;
       calls := calls s ++ SetQueryData (CallSession.id cs) cs :: cl |} in
  if truthy_opt (CallSession.speechmaticsApiKey cs) then
    (inr tt,
     base false
       (switch_calls s (CallSession.speechmaticsApiKey cs)
          (CallSession.language cs)))
  else
    match generate n with
    | inl e =>
        (inl e,
         base (hasChatActivitySinceLastExtension s)
           [GenerateSpeechmaticsSession])
    | inr activated =>
        (inr tt,
         base false
           (GenerateSpeechmaticsSession
            :: switch_calls s (CallSession.speechmaticsApiKey activated)
                 (CallSession.language cs)))
    end.
Proof.
  destruct s as [c ld ats mic ms st ci nw hae hca ct cl].
  destruct (truthy_opt (CallSession.speechmaticsApiKey cs)) eqn:Hkey.
  - destruct ats, mic; run_hook; rewrite Hkey; run_hook;
      repeat rewrite <- app_assoc; reflexivity.
  - assert (Hn : List.length
                   (filter is_GenerateSpeechmaticsSession
                      (cl ++ [SetQueryData (CallSession.id cs) cs])) =
                 List.length (filter is_GenerateSpeechmaticsSession cl)).
    { rewrite filter_app, length_app. simpl. apply Nat.add_0_r. }
    destruct (generate (List.length
                          (filter is_GenerateSpeechmaticsSession cl)))
      as [e|activated] eqn:Hgen;
      destruct ats, mic; run_hook; rewrite Hkey; run_hook;
      rewrite Hn, Hgen; run_hook;
      repeat rewrite <- app_assoc; reflexivity.
Qed.

Lemma renewal_due_not_reset_due (s : State B) :
  renewal_due s = true -> reset_due s = false.
Proof.
  unfold renewal_due, reset_due. intros H.
  apply andb_true_iff in H. destruct H as [_ H].
  apply negb_true_iff in H. rewrite H. apply andb_false_r.
Qed.

Lemma commit_run (s : State B) :
  commit generate s =
  (inr tt,
   if renewal_due s then
     match callSession s with
     | Some cs =>
         snd (handleSessionExtended generate cs (with_hasAutoExtended true s))
     | None => with_hasAutoExtended true s
     end
   else if reset_due s then with_hasAutoExtended false s else s).
Proof.
  unfold commit, autoExtendEffect, resetEffect.
  unfold bind at 1. unfold get at 1.
  destruct (renewal_due s) eqn:Hdue.
  - rewrite (renewal_due_not_reset_due s Hdue).
    unfold bind, try_catch, modify, ret.
    destruct (callSession s) as [cs|]; [|reflexivity].
    destruct (handleSessionExtended generate cs (with_hasAutoExtended true s))
      as [[e|[]] s1]; reflexivity.
  - unfold bind, modify, ret. destruct (reset_due s); reflexivity.
Qed.

Lemma switch_calls_no_SetQueryData (s : State B) (k : option string)
    (l : string) :
  filter is_SetQueryData (switch_calls s k l) = [].
Proof.
  unfold switch_calls.
  destruct (audioTapStatus s), (isRecordingMicrophone s); reflexivity.
Qed.

Lemma handleSessionExtended_counts (cs : CallSession.t) (s : State B) :
  let s' := snd (handleSessionExtended generate cs s) in
  renewals s' = S (renewals s) /\
  hasAutoExtended s' = hasAutoExtended s /\
  timeLeft s' = timeLeft s /\
  exists cl, calls s' = calls s ++ SetQueryData (CallSession.id cs) cs :: cl.
Proof.
  rewrite handleSessionExtended_run. cbv zeta. unfold renewals, timeLeft.
  destruct (truthy_opt (CallSession.speechmaticsApiKey cs));
    [|destruct (generate _)];
    cbn [snd calls hasAutoExtended callSession now];
    rewrite filter_app, length_app; cbn [filter is_SetQueryData];
    rewrite ?switch_calls_no_SetQueryData; simpl;
    (split; [lia|split; [reflexivity|split; [reflexivity|]]]);
    eexists; reflexivity.
Qed.

Lemma commit_counts (s : State B) :
  let s' := snd (commit generate s) in
  renewals s' = renewals s + (if renewal_due s then 1 else 0) /\
  hasAutoExtended s' =
    (if renewal_due s then true
     else if reset_due s then false else hasAutoExtended s).
Proof.
  rewrite commit_run. cbn [snd].
  destruct (renewal_due s) eqn:Hdue.
  - assert (Hcs : exists cs, callSession s = Some cs).
    { unfold renewal_due, willAutoExtend in Hdue.
      destruct (callSession s); [eauto|discriminate]. }
    destruct Hcs as [cs Hcs]. rewrite Hcs.
    destruct (handleSessionExtended_counts cs (with_hasAutoExtended true s))
      as (Hn & Hf & _).
    rewrite Hn, Hf. split; [|reflexivity].
    unfold renewals. simpl. lia.
  - destruct (reset_due s); split; try reflexivity; unfold renewals; simpl;
      lia.
Qed.

(** The render that follows the state changes of the effects changes
    nothing more: one render for each input is enough. *)
Lemma commit_settles (s : State B) :
  snd (commit generate (snd (commit generate s))) = snd (commit generate s).
Proof.
  assert (Hexcl : forall o, num_below o 60000 = true ->
                            num_above o 60000 = false).
  { intros [z|] H; [|reflexivity]. unfold num_below, num_above in *.
    apply andb_true_iff in H. destruct H as [_ H]. apply Z.ltb_lt in H.
    apply andb_false_intro2. rewrite Z.gtb_ltb. apply Z.ltb_ge. lia. }
  set (s1 := snd (commit generate s)).
  assert (Hquiet : renewal_due s1 = false /\ reset_due s1 = false).
  { subst s1. rewrite commit_run. cbn [snd].
    destruct (renewal_due s) eqn:Hdue; [|destruct (reset_due s) eqn:Hreset].
    - unfold renewal_due in Hdue. apply andb_true_iff in Hdue.
      destruct Hdue as [Hdue _]. apply andb_true_iff in Hdue.
      destruct Hdue as [Hwill Hbel]. unfold willAutoExtend in Hwill.
      destruct (callSession s) as [cs|] eqn:Hcs; [|discriminate].
      destruct (handleSessionExtended_counts cs (with_hasAutoExtended true s))
        as (_ & Hf & Htl & _).
      unfold renewal_due, reset_due. rewrite Hf, Htl. cbn [hasAutoExtended
        with_hasAutoExtended].
      replace (timeLeft (with_hasAutoExtended true s)) with (timeLeft s)
        by reflexivity.
      rewrite (Hexcl _ Hbel). split; [apply andb_false_r|reflexivity].
    - unfold reset_due in Hreset. apply andb_true_iff in Hreset.
      destruct Hreset as [Habove _].
      unfold renewal_due, reset_due. cbn [hasAutoExtended
        with_hasAutoExtended].
      replace (timeLeft (with_hasAutoExtended false s)) with (timeLeft s)
        by reflexivity.
      split; [|apply andb_false_r].
      destruct (num_below (timeLeft s) 60000) eqn:Hbel.
      + rewrite (Hexcl _ Hbel) in Habove. discriminate.
      + rewrite andb_false_r. reflexivity.
    - split; assumption. }
  destruct Hquiet as [Hdue Hreset].
  rewrite (commit_run s1), Hdue, Hreset. reflexivity.
Qed.

Lemma apply_input_counts (i : Input) (s : State B) :
  let s' := snd (apply_input i s) in
  renewals s' = renewals s /\ hasAutoExtended s' = hasAutoExtended s.
Proof.
  destruct i as [d|cs|b|txt|t|capture resize]; simpl;
    try (split; reflexivity).
  - rewrite handleGenerateResponse_run. cbv zeta. unfold renewals.
    cbn [snd calls hasAutoExtended]. split; [|reflexivity].
    rewrite !filter_app. unfold saved_calls.
    destruct (callSession s) as [cs|];
      [destruct (truthy (CallSession.id cs)
                 && CallSession.saveTranscription cs)|];
      destruct t; simpl; rewrite ?app_nil_r; reflexivity.
  - rewrite handleGenerateResponseWithScreenshot_run. cbv zeta.
    unfold renewals.
    destruct capture as [e|u]; [|destruct (resize u)];
      cbn [snd calls hasAutoExtended]; (split; [|reflexivity]);
      rewrite !filter_app; simpl; rewrite ?app_nil_r; try reflexivity.
    unfold saved_calls.
    destruct (callSession s) as [cs|];
      [destruct (truthy (CallSession.id cs)
                 && CallSession.saveTranscription cs)|];
      simpl; rewrite ?app_nil_r; reflexivity.
Qed.

Lemma apply_input_returns (i : Input) (s : State B) :
  fst (apply_input i s) = inr tt.
Proof.
  destruct i as [d|cs|b|txt|t|capture resize]; simpl; try reflexivity.
  - rewrite handleGenerateResponse_run. reflexivity.
  - rewrite handleGenerateResponseWithScreenshot_run. reflexivity.
Qed.

Lemma step_run (i : Input) (s : State B) :
  step generate i s = snd (commit generate (snd (apply_input i s))).
Proof.
  unfold step, bind. pose proof (apply_input_returns i s) as H.
  destruct (apply_input i s) as [[e|[]] s1]; simpl in *;
    [discriminate|reflexivity].
Qed.

(** While the flag is armed and no render sees more than 60000 ms left,
    nothing is renewed. *)
Lemma armed_run_renews_nothing (ins : list Input) (s : State B) :
  Forall (fun r => num_above (timeLeft r) 60000 = false)
         (renders generate ins s) ->
  hasAutoExtended s = true ->
  renewals (run generate ins s) = renewals s.
Proof.
  revert s. induction ins as [|i ins IH]; intros s Hbelow Harmed;
    [reflexivity|].
  simpl in *. inversion Hbelow as [|r rs Hr Hrs]; subst.
  destruct (apply_input_counts i s) as [Hn Hf].
  destruct (commit_counts (snd (apply_input i s))) as [Hn' Hf'].
  rewrite <- step_run in Hn', Hf'.
  assert (Hdue : renewal_due (snd (apply_input i s)) = false).
  { unfold renewal_due. rewrite Hf, Harmed. apply andb_false_r. }
  assert (Hreset : reset_due (snd (apply_input i s)) = false).
  { unfold reset_due. rewrite Hr. reflexivity. }
  rewrite Hdue, Hreset in *.
  rewrite IH; [lia|exact Hrs|congruence].
Qed.

Lemma disarmed_run_renews_once (ins : list Input) (s : State B) :
  Forall (fun r => num_above (timeLeft r) 60000 = false)
         (renders generate ins s) ->
  hasAutoExtended s = false ->
  renewals (run generate ins s) =
  renewals s +
  (if existsb eligible_near_expiry (renders generate ins s) then 1 else 0).
Proof.
  revert s. induction ins as [|i ins IH]; intros s Hbelow Hoff;
    [simpl; lia|].
  simpl in *. inversion Hbelow as [|r rs Hr Hrs]; subst.
  destruct (apply_input_counts i s) as [Hn Hf].
  destruct (commit_counts (snd (apply_input i s))) as [Hn' Hf'].
  rewrite <- step_run in Hn', Hf'.
  assert (Hdue : renewal_due (snd (apply_input i s)) =
                 eligible_near_expiry (snd (apply_input i s))).
  { unfold renewal_due, eligible_near_expiry. rewrite Hf, Hoff.
    apply andb_true_r. }
  assert (Hreset : reset_due (snd (apply_input i s)) = false).
  { unfold reset_due. rewrite Hf, Hoff. apply andb_false_r. }
  rewrite Hdue, Hreset in *.
  destruct (eligible_near_expiry (snd (apply_input i s))); simpl.
  - rewrite armed_run_renews_nothing; [lia|exact Hrs|exact Hf'].
  - rewrite IH; [lia|exact Hrs|congruence].
Qed.

(** C3, as the code has it. The renewal fires in a render with less than
    60000 ms left and the flag is reset in a render with more than 60000 ms
    left: the same value, with no band between. In one render: either
    nothing is renewed, or exactly one renewal is attempted, and then the
    flag was off, is on afterwards, and the time left was non-zero and
    below 60000; the flag goes from on to off only in a render that sees
    more than 60000 ms left. Over a run in which no render sees more than
    60000 ms left: at most one renewal is attempted; none when the flag is
    on at the start; and when it is off at the start, exactly one if some
    render finds the session eligible with a non-zero time left below
    60000, and none otherwise. *)
Theorem renewal_once_while_not_above_60000
    (ins : list Input) (s : State B)
    (Hbelow : Forall (fun r => num_above (timeLeft r) 60000 = false)
                     (renders generate ins s)) :
  (forall r : State B,
     let r' := snd (commit generate r) in
     (renewals r' = renewals r \/
      renewals r' = S (renewals r) /\
      hasAutoExtended r = false /\ hasAutoExtended r' = true /\
      exists z, timeLeft r = Some z /\ (z <> 0)%Z /\ (z < 60000)%Z) /\
     (hasAutoExtended r = true -> hasAutoExtended r' = false ->
      exists z, timeLeft r = Some z /\ (60000 < z)%Z)) /\
  renewals (run generate ins s) <= S (renewals s) /\
  (hasAutoExtended s = true -> renewals (run generate ins s) = renewals s) /\
  (hasAutoExtended s = false ->
   renewals (run generate ins s) =
   renewals s +
   (if existsb eligible_near_expiry (renders generate ins s)
    then 1 else 0)).
Proof.
  split; [|split; [|split]].
  - intros r r'. destruct (commit_counts r) as [Hn Hf]. fold r' in Hn, Hf.
    split.
    + destruct (renewal_due r) eqn:Hdue; [right|left; lia].
      split; [lia|]. unfold renewal_due in Hdue.
      apply andb_true_iff in Hdue. destruct Hdue as [Hdue Hoff].
      apply andb_true_iff in Hdue. destruct Hdue as [_ Hbel].
      apply negb_true_iff in Hoff. split; [exact Hoff|].
      split; [exact Hf|].
      unfold num_below in Hbel. destruct (timeLeft r) as [z|];
        [|discriminate].
      apply andb_true_iff in Hbel. destruct Hbel as [Hnz Hlt].
      exists z. split; [reflexivity|]. split.
      * apply negb_true_iff, Z.eqb_neq in Hnz. exact Hnz.
      * apply Z.ltb_lt. exact Hlt.
    + intros Hon Hoff. rewrite Hoff in Hf.
      assert (Hdue : renewal_due r = false).
      { unfold renewal_due. rewrite Hon. apply andb_false_r. }
      rewrite Hdue in Hf.
      destruct (reset_due r) eqn:Hreset; [|congruence].
      unfold reset_due in Hreset. apply andb_true_iff in Hreset.
      destruct Hreset as [Habove _]. unfold num_above in Habove.
      destruct (timeLeft r) as [z|]; [|discriminate].
      apply andb_true_iff in Habove. destruct Habove as [_ Hgt].
      exists z. split; [reflexivity|]. apply Z.gtb_lt in Hgt. exact Hgt.
  - destruct (hasAutoExtended s) eqn:Hflag.
    + rewrite armed_run_renews_nothing by assumption. lia.
    + rewrite disarmed_run_renews_once by assumption.
      destruct (existsb _ _); lia.
  - intros Hon. apply armed_run_renews_nothing; assumption.
  - intros Hoff. apply disarmed_run_renews_once; assumption.
Qed.

(** C4. A render attempts a renewal only when the session is not a trial,
    [canExtend] holds, no activation is pending, and the chat-activity flag
    is set. [handleSessionExtended] first writes the query cache; it takes
    the credential of the session when that is truthy and otherwise calls
    [generateSpeechmaticsSession] and takes the credential of the session
    it resolves with; it then calls [switchAudioTapApiKey] when the system
    tap is RECORDING and [switchMicrophoneApiKey] when the microphone is
    recording, each with that credential and the language of the session,
    calls nothing else, and clears the chat-activity flag; when the
    activation rejects nothing is switched and the flag is left as it was.
    Both chat triggers leave the chat-activity flag set. *)
Theorem renewal_only_when_eligible_switches_recording_adapters
    (s : State B) (cs : CallSession.t) (t : Task)
    (capture : JsError + string) (resize : string -> JsError + string) :
  let n := List.length (filter is_GenerateSpeechmaticsSession (calls s)) in
  let renewed := snd (handleSessionExtended generate cs s) in
  let switches (key : option string) :=
    match audioTapStatus s with
    | RECORDING => [SwitchAudioTapApiKey key (CallSession.language cs)]
    | _ => []
    end ++
    if isRecordingMicrophone s
    then [SwitchMicrophoneApiKey key (CallSession.language cs)] else [] in
  (renewals (snd (commit generate s)) <> renewals s ->
   exists c, callSession s = Some c /\
             CallSession.trial c = false /\
             CallSession.canExtend c = true /\
             generateSpeechmaticsSessionLoading s = false /\
             hasChatActivitySinceLastExtension s = true /\
             new_calls s (snd (commit generate s)) =
               new_calls s (snd (handleSessionExtended generate c s))) /\
  (if truthy_opt (CallSession.speechmaticsApiKey cs) then
     fst (handleSessionExtended generate cs s) = inr tt /\
     new_calls s renewed =
       SetQueryData (CallSession.id cs) cs
       :: switches (CallSession.speechmaticsApiKey cs) /\
     hasChatActivitySinceLastExtension renewed = false
   else
     match generate n with
     | inr activated =>
         fst (handleSessionExtended generate cs s) = inr tt /\
         new_calls s renewed =
           SetQueryData (CallSession.id cs) cs
           :: GenerateSpeechmaticsSession
           :: switches (CallSession.speechmaticsApiKey activated) /\
         hasChatActivitySinceLastExtension renewed = false
     | inl e =>
         fst (handleSessionExtended generate cs s) = inl e /\
         new_calls s renewed =
           [SetQueryData (CallSession.id cs) cs;
            GenerateSpeechmaticsSession] /\
         hasChatActivitySinceLastExtension renewed =
           hasChatActivitySinceLastExtension s
     end) /\
  hasChatActivitySinceLastExtension (snd (handleGenerateResponse t s))
    = true /\
  hasChatActivitySinceLastExtension
    (snd (handleGenerateResponseWithScreenshot capture resize s)) = true.
Proof.
  intros n renewed switches.
  split; [|split; [|split]].
  - intros Hchanged. destruct (commit_counts s) as [Hn _].
    destruct (renewal_due s) eqn:Hdue; [|lia].
    rewrite commit_run, Hdue. cbn [snd].
    unfold renewal_due in Hdue. apply andb_true_iff in Hdue.
    destruct Hdue as [Hdue _]. apply andb_true_iff in Hdue.
    destruct Hdue as [Hwill _]. unfold willAutoExtend in Hwill.
    destruct (callSession s) as [c|]; [|discriminate].
    repeat (apply andb_true_iff in Hwill;
            let H := fresh "H" in destruct Hwill as [Hwill H]).
    exists c. split; [reflexivity|].
    repeat split;
      try (apply negb_true_iff; assumption); try assumption.
    rewrite !handleSessionExtended_run. cbv zeta.
    destruct (truthy_opt (CallSession.speechmaticsApiKey c));
      [|cbn [calls with_hasAutoExtended]; destruct (generate _)];
      reflexivity.
  - subst renewed. rewrite handleSessionExtended_run. cbv zeta. fold n.
    destruct (truthy_opt (CallSession.speechmaticsApiKey cs));
      [|destruct (generate n)];
      cbn [fst snd hasChatActivitySinceLastExtension];
      (split; [reflexivity|split; [|reflexivity]]);
      apply new_calls_app; reflexivity.
  - rewrite handleGenerateResponse_run. reflexivity.
  - rewrite handleGenerateResponseWithScreenshot_run. cbv zeta.
    destruct capture as [e|u]; [|destruct (resize u)]; reflexivity.
Qed.

End Renewal.

End HookFacts.

(** ** The facts at sample data *)

(** C5 at fifteen sample turns. *)
Lemma history_trimmed_to_last_ten_sample :
  List.length (messages (with_messages fifteen_turns sample_state)) = 15 /\
  List.length
    (newMessages (messages (with_messages fifteen_turns sample_state))) = 10.
Proof.
  split; [reflexivity|].
  exact (proj1 (proj2 (history_trimmed_to_last_ten (buffer := buffer_hook " ")
    ai_help (with_messages fifteen_turns sample_state) eq_refl))).
Defined.

(** C3, as the code has it, on a time left that stays at or just under
    60000 ms: one renewal. *)
Lemma renewal_once_while_hovering :
  Forall (fun r => num_above (timeLeft r) 60000 = false)
         (renders (buffer := buffer_hook " ") sample_generate
            hovering_inputs sample_state) /\
  map timeLeft
      (renders (buffer := buffer_hook " ") sample_generate
         hovering_inputs sample_state)
  = [Some 59999; Some 60000; Some 59999; Some 60000]%Z /\
  renewals (run (buffer := buffer_hook " ") sample_generate
              hovering_inputs sample_state) = 1.
Proof.
  assert (Hbelow :
            Forall (fun r => num_above (timeLeft r) 60000 = false)
                   (renders (buffer := buffer_hook " ") sample_generate
                      hovering_inputs sample_state))
    by (repeat constructor).
  split; [exact Hbelow|]. split; [reflexivity|].
  destruct (renewal_once_while_not_above_60000 (buffer := buffer_hook " ")
              sample_generate hovering_inputs sample_state Hbelow)
    as (_ & _ & _ & Honce).
  rewrite (Honce eq_refl). reflexivity.
Defined.

(** Against C3 as stated: a time left that moves by one millisecond to
    each side of 60000 is renewed at each dip when a chat turn came in
    between, and it never rises above 60001, the least threshold that is
    larger than 60000. *)
Lemma renewal_repeats_across_60000 :
  map timeLeft
      (renders (buffer := buffer_hook " ") sample_generate
         flapping_inputs sample_state)
  = [Some 59999; Some 59999; Some 60001; Some 59999]%Z /\
  renewals sample_state = 0 /\
  renewals (run (buffer := buffer_hook " ") sample_generate
              flapping_inputs sample_state) = 2.
Proof. repeat split; reflexivity. Qed.

(** Against C6 as stated: on a direct message the content of the appended
    turn is not the input text but the input text after a fixed prefix. *)
Lemma direct_message_content_is_prefixed :
  chatInput sample_state = "hi"%string /\
  map content
      (messages (snd (handleGenerateResponse (buffer := buffer_hook " ")
                        direct_message sample_state)))
  = ["**Direct Message from Sales Agent**: hi"%string] /\
  map content
      (messages (snd (handleGenerateResponse (buffer := buffer_hook " ")
                        direct_message sample_state)))
  <> [chatInput sample_state].
Proof. repeat split; try reflexivity. discriminate. Qed.

(** * Further facts *)

(** ** Every instance is cleaned up once *)

Section MainRuns.
Import Main.

Lemma started_instances_app (a b : list Event) :
  started_instances (a ++ b) = started_instances a ++ started_instances b.
Proof. apply flat_map_app. Qed.

Lemma cleaned_instances_app (a b : list Event) :
  cleaned_instances (a ++ b) = cleaned_instances a ++ cleaned_instances b.
Proof. apply flat_map_app. Qed.

Lemma books_balance_init : books_balance init.
Proof. repeat split; constructor. Qed.

Lemma NoDup_snoc_fresh (l : list Handle) (n : nat) :
  NoDup l -> Forall (fun h => h < n) l -> NoDup (l ++ [n]).
Proof.
  intros Hnd Hlt. apply NoDup_app; [exact Hnd|repeat constructor; auto|].
  intros h Hin [Heq|[]]. subst h.
  rewrite Forall_forall in Hlt. specialize (Hlt n Hin). lia.
Qed.

Lemma Forall_lt_S (l : list Handle) (n : nat) :
  Forall (fun h => h < n) l -> Forall (fun h => h < S n) l.
Proof. apply Forall_impl. intros; lia. Qed.

Lemma books_balance_start (host : Host) (cfg : AudioTapConfig) (w : World) :
  books_balance w -> books_balance (snd (ipc_start_audio_tap host cfg w)).
Proof.
  intros (Hbooks & Hlt & Hnd). rewrite ipc_start_audio_tap_run.
  unfold books_balance, held in *. unfold cleanup_events.
  destruct (audioTapInstance w) as [h|];
    [destruct (cleanup_rejects host h)|];
    destruct (native_impl host) as [impl|]; cbv zeta;
    try destruct (start_rejects host impl (starts w) cfg);
    cbn [snd trace starts audioTapInstance];
    rewrite !started_instances_app, !cleaned_instances_app; simpl;
    rewrite ?app_nil_r;
    (split; [rewrite Hbooks, <- ?app_assoc, ?app_nil_r; reflexivity|split]);
    auto using Forall_lt_S, NoDup_snoc_fresh;
    try (apply Forall_app; split;
         [apply Forall_lt_S; assumption|repeat constructor]).
Qed.

Lemma books_balance_stop (host : Host) (w : World) :
  books_balance w -> books_balance (snd (ipc_stop_audio_tap host w)).
Proof.
  intros (Hbooks & Hlt & Hnd). rewrite ipc_stop_audio_tap_run.
  unfold books_balance, held in *. unfold cleanup_events.
  destruct (audioTapInstance w) as [h|] eqn:Hslot; cbn [snd];
    [|rewrite Hslot; auto].
  cbn [trace starts audioTapInstance].
  rewrite !started_instances_app, !cleaned_instances_app.
  destruct (cleanup_rejects host h); simpl; rewrite !app_nil_r; auto.
Qed.

Lemma books_balance_serve (host : Host) (rs : list Request) (w : World) :
  books_balance w -> books_balance (serve host rs w).
Proof.
  revert w. induction rs as [|r rs IH]; intros w Hw; [exact Hw|].
  simpl. apply IH. destruct r as [cfg|]; simpl.
  - apply books_balance_start, Hw.
  - apply books_balance_stop, Hw.
Qed.

(** X1. After any sequence of start and stop requests served one after
    the other: the instances whose [cleanup()] was called are, in the same
    order, the instances the native starts returned, except the one still
    in the slot; no instance was returned twice and [cleanup()] was never
    called twice on one instance, nor on the one in the slot; and after one
    more stop every instance ever started has been cleaned up. *)
Theorem instances_cleaned_once_in_start_order
    (host : Host) (rs : list Request) :
  let w := serve host rs init in
  let stopped := snd (ipc_stop_audio_tap host w) in
  started_instances (trace w) = cleaned_instances (trace w) ++ held w /\
  NoDup (started_instances (trace w)) /\
  NoDup (cleaned_instances (trace w)) /\
  (forall h, audioTapInstance w = Some h ->
             ~ In h (cleaned_instances (trace w))) /\
  started_instances (trace stopped) = cleaned_instances (trace stopped).
Proof.
  intros w stopped.
  assert (Hw : books_balance w)
    by (apply books_balance_serve, books_balance_init).
  assert (Hs : books_balance stopped) by (apply books_balance_stop, Hw).
  destruct Hw as (Hbooks & _ & Hnd).
  split; [exact Hbooks|]. split; [exact Hnd|].
  rewrite Hbooks in Hnd. split; [|split].
  - apply NoDup_app_remove_r in Hnd. exact Hnd.
  - intros h Hslot Hin. unfold held in Hnd. rewrite Hslot in Hnd.
    apply NoDup_remove_2 in Hnd. rewrite app_nil_r in Hnd. contradiction.
  - destruct Hs as (Hs & _). subst stopped.
    rewrite Hs. unfold held. rewrite ipc_stop_audio_tap_run.
    cbn [snd]. destruct (audioTapInstance w) eqn:E; cbn [audioTapInstance];
      rewrite ?E; apply app_nil_r.
Qed.

End MainRuns.

(** ** Protocol URLs, the window and shortcuts *)

Section ShellFacts.
Import Shell.

Lemma prefix_app (p r : string) : prefix p (p ++ r) = true.
Proof.
  induction p as [|a p IH]; [destruct r; reflexivity|].
  simpl. destruct (ascii_dec a a); [exact IH|congruence].
Qed.

Lemma drop_app (p r : string) : drop (String.length p) (p ++ r) = r.
Proof. induction p as [|a p IH]; [destruct r; reflexivity|exact IH]. Qed.

Lemma replace_first_unfold (pat rep s : string) :
  replace_first pat rep s =
  if prefix pat s then (rep ++ drop (String.length pat) s)%string
  else
    match s with
    | EmptyString => EmptyString
    | String c s' => String c (replace_first pat rep s')
    end.
Proof. destruct s; reflexivity. Qed.

Lemma replace_first_at_start (p r : string) :
  replace_first p "" (p ++ r) = r.
Proof.
  rewrite replace_first_unfold, prefix_app, drop_app. reflexivity.
Qed.

Lemma strip_trailing_slash_added (id : string) :
  strip_trailing_slash (id ++ "/") = id.
Proof.
  induction id as [|c id IH]; [reflexivity|].
  simpl. rewrite IH.
  destruct (id ++ "/")%string eqn:E; [destruct id; discriminate|].
  simpl. rewrite andb_false_r. reflexivity.
Qed.

Lemma strip_trailing_slash_none (id : string) :
  ends_with_slash id = false -> strip_trailing_slash id = id.
Proof.
  induction id as [|c id IH]; [reflexivity|].
  simpl. destruct id as [|d id]; simpl in *.
  - intros ->. reflexivity.
  - intros H. rewrite andb_false_r. rewrite IH by exact H. reflexivity.
Qed.

Lemma sessionId_of_prefixed (rest : string) :
  sessionId_of (protocol_prefix ++ rest) = strip_trailing_slash rest.
Proof. unfold sessionId_of. rewrite replace_first_at_start. reflexivity. Qed.

(** X2. The session id of a protocol URL: for a URL made of the prefix
    [clozerai://] and any rest, the id is the rest without one slash at
    its end; so the URL with the id and the URL with the id and a slash
    name the same session, when the id does not itself end in a slash. *)
Theorem sessionId_of_protocol_url (rest id : string) :
  sessionId_of (protocol_prefix ++ rest) = strip_trailing_slash rest /\
  sessionId_of (protocol_prefix ++ id ++ "/") = id /\
  (ends_with_slash id = false -> sessionId_of (protocol_prefix ++ id) = id).
Proof.
  unfold sessionId_of. rewrite !replace_first_at_start.
  split; [reflexivity|]. split.
  - apply strip_trailing_slash_added.
  - apply strip_trailing_slash_none.
Qed.

Lemma handleProtocolUrl_run (url : string) (s : State) :
  handleProtocolUrl url s =
  (inr tt,
   if negb (startsWith url protocol_prefix) then
     {| mainWindow := mainWindow s;
        initialProtocolUrl := initialProtocolUrl s;
        sent := sent s;
        console := console s ++ [("Received protocol URL:", Some url);
                                 ("Invalid protocol", None)] |}
   else
     let logged :=
       console s ++ [("Received protocol URL:", Some url);
                     ("Session ID:", Some (sessionId_of url))] in
     match mainWindow s with
     | Some win =>
         {| mainWindow := Some (restore_and_focus win);
            initialProtocolUrl := initialProtocolUrl s;
            sent := sent s ++ [("ipc-load-session", [sessionId_of url])];
            console := logged |}
     | None =>
         {| mainWindow := None;
            initialProtocolUrl := Some url;
            sent := sent s;
            console := logged |}
     end).
Proof.
  destruct s as [w u st cl].
  unfold handleProtocolUrl, log, send, set_mainWindow, set_initialProtocolUrl,
    bind, get, modify, ret.
  cbn [mainWindow initialProtocolUrl sent console].
  destruct (negb (startsWith url protocol_prefix)); cbv zeta;
    [|destruct w];
    cbn [mainWindow initialProtocolUrl sent console];
    rewrite <- app_assoc; reflexivity.
Qed.

(** X3. [handleProtocolUrl] never throws. A URL that does not start with
    [clozerai://] changes neither the window, nor the stored URL, nor
    what is sent to the renderer. A URL that does is, when the window
    exists, sent at once as one [ipc-load-session] message with its
    session id, to a window that is then focused and not minimized, and
    nothing is stored; when there is no window, nothing is sent and the
    URL is stored for later. *)
Theorem protocol_url_loaded_or_stored (url : string) (s : State) :
  let s' := snd (handleProtocolUrl url s) in
  fst (handleProtocolUrl url s) = inr tt /\
  if startsWith url protocol_prefix then
    match mainWindow s with
    | Some win =>
        sent s' = sent s ++ [("ipc-load-session", [sessionId_of url])] /\
        initialProtocolUrl s' = initialProtocolUrl s /\
        exists win', mainWindow s' = Some win' /\
                     minimized win' = false /\ focused win' = true /\
                     visible win' = visible win
    | None =>
        sent s' = sent s /\ mainWindow s' = None /\
        initialProtocolUrl s' = Some url
    end
  else
    sent s' = sent s /\ mainWindow s' = mainWindow s /\
    initialProtocolUrl s' = initialProtocolUrl s.
Proof.
  intros s'. subst s'. rewrite handleProtocolUrl_run.
  split; [reflexivity|]. cbn [snd].
  destruct (startsWith url protocol_prefix); cbn [negb]; cbv zeta;
    [|repeat split; reflexivity].
  destruct (mainWindow s) as [win|]; repeat split; try reflexivity.
  eexists. split; [reflexivity|].
  unfold restore_and_focus. cbn. destruct (minimized win); auto.
Qed.

Lemma ready_to_show_run (s : State) :
  ready_to_show s =
  match mainWindow s with
  | None =>
      (inl (Error (double_quote ++ "mainWindow" ++ double_quote
                   ++ " is not defined")), s)
  | Some win =>
      let shown :=
        {| minimized := minimized win; focused := focused win;
           visible := true; contentProtection := contentProtection win;
           ignoreMouseEvents := ignoreMouseEvents win |} in
      let s1 := {| mainWindow := Some shown;
                   initialProtocolUrl := initialProtocolUrl s;
                   sent := sent s; console := console s |} in
      match initialProtocolUrl s with
      | Some url =>
          if truthy url then
            (inr tt,
             let s2 := snd (handleProtocolUrl url s1) in
             {| mainWindow := mainWindow s2; initialProtocolUrl := None;
                sent := sent s2; console := console s2 |})
          else (inr tt, s1)
      | None => (inr tt, s1)
      end
  end.
Proof.
  destruct s as [w u st cl]. unfold ready_to_show.
  unfold bind at 1. unfold get at 1. cbn [mainWindow].
  destruct w as [win|]; [|reflexivity].
  unfold bind at 1. unfold set_mainWindow at 1, modify at 1.
  cbn [mainWindow initialProtocolUrl sent console]. cbv zeta.
  destruct u as [url|]; [|reflexivity].
  destruct (truthy url); [|reflexivity].
  unfold bind, set_initialProtocolUrl, modify.
  rewrite handleProtocolUrl_run. reflexivity.
Qed.

(** X4. A protocol URL that arrives before the window exists is
    delivered when the window is ready: with no window, after
    [handleProtocolUrl] nothing is sent; after [createWindow] and
    [ready-to-show] exactly one [ipc-load-session] message with the
    session id of the URL has been sent, to a window that is shown and
    focused, and the stored URL is cleared, so a second [ready-to-show]
    sends nothing more. [ready-to-show] with no window throws. *)
Theorem deferred_protocol_url_delivered_once
    (platform rest : string) (s : State) (Hnone : mainWindow s = None) :
  let url := (protocol_prefix ++ rest)%string in
  let s1 := snd (handleProtocolUrl url s) in
  let s2 := snd (createWindow platform s1) in
  let s3 := snd (ready_to_show s2) in
  let s4 := snd (ready_to_show s3) in
  sent s1 = sent s /\
  fst (ready_to_show s1) =
    inl (Error (double_quote ++ "mainWindow" ++ double_quote
                ++ " is not defined")) /\
  fst (ready_to_show s2) = inr tt /\
  sent s3 =
    sent s ++ [("ipc-load-session", [strip_trailing_slash rest])] /\
  initialProtocolUrl s3 = None /\
  (exists win, mainWindow s3 = Some win /\
               visible win = true /\ focused win = true /\
               contentProtection win = true) /\
  sent s4 = sent s3.
Proof.
  intros url s1 s2 s3 s4.
  assert (Hid : sessionId_of url = strip_trailing_slash rest)
    by apply sessionId_of_prefixed.
  assert (Hstart : startsWith url protocol_prefix = true)
    by apply prefix_app.
  assert (Hs1 : s1 = {| mainWindow := None; initialProtocolUrl := Some url;
                        sent := sent s;
                        console := console s1 |}).
  { subst s1. rewrite handleProtocolUrl_run, Hstart, Hnone. reflexivity. }
  assert (Hs3 : mainWindow s3 =
                  Some {| minimized := false; focused := true;
                          visible := true; contentProtection := true;
                          ignoreMouseEvents := true |} /\
                initialProtocolUrl s3 = None /\
                sent s3 = sent s ++
                  [("ipc-load-session", [strip_trailing_slash rest])]).
  { subst s3 s2. rewrite Hs1. unfold createWindow, set_mainWindow, modify.
    cbn [snd mainWindow initialProtocolUrl sent console].
    rewrite ready_to_show_run.
    cbn [mainWindow initialProtocolUrl sent console]. cbv zeta.
    assert (truthy url = true) as -> by reflexivity.
    rewrite handleProtocolUrl_run, Hstart, Hid.
    cbn. auto. }
  destruct Hs3 as (Hwin & Hurl & Hsent).
  split; [rewrite Hs1; reflexivity|].
  split; [rewrite ready_to_show_run, Hs1; reflexivity|].
  split.
  { subst s2. rewrite Hs1. unfold createWindow, set_mainWindow, modify.
    cbn [snd mainWindow initialProtocolUrl sent console].
    rewrite ready_to_show_run.
    cbn [mainWindow initialProtocolUrl]. cbv zeta.
    assert (truthy url = true) as -> by reflexivity. reflexivity. }
  split; [exact Hsent|]. split; [exact Hurl|].
  split; [eexists; split; [exact Hwin|]; auto|].
  subst s4. rewrite ready_to_show_run, Hwin, Hurl. reflexivity.
Qed.

Lemma protocolArg_of_first (before after : list string) (arg : string) :
  Forall (fun a => startsWith a protocol_prefix = false) before ->
  startsWith arg protocol_prefix = true ->
  protocolArg_of (before ++ arg :: after) = Some arg.
Proof.
  intros Hbefore Harg. unfold protocolArg_of.
  induction Hbefore as [|a before Ha _ IH]; simpl.
  - rewrite Harg. reflexivity.
  - rewrite Ha. exact IH.
Qed.

Lemma second_instance_run (platform : string) (argv : list string)
    (s : State) :
  second_instance platform argv s =
  let s1 :=
    if isWindows platform then
      match protocolArg_of argv with
      | Some protocolArg =>
          if truthy protocolArg then snd (handleProtocolUrl protocolArg s)
          else s
      | None => s
      end
    else s in
  (inr tt,
   match mainWindow s1 with
   | Some win =>
       {| mainWindow := Some (restore_and_focus win);
          initialProtocolUrl := initialProtocolUrl s1;
          sent := sent s1; console := console s1 |}
   | None => s1
   end).
Proof.
  unfold second_instance. unfold bind at 1.
  destruct (isWindows platform);
    [destruct (protocolArg_of argv) as [arg|];
     [destruct (truthy arg); [rewrite handleProtocolUrl_run|]|]|];
    cbv zeta; unfold bind, get, ret, set_mainWindow, modify; cbn [fst snd];
    match goal with
    | |- context [mainWindow ?x] => destruct (mainWindow x); reflexivity
    end.
Qed.

(** X5. The [second-instance] handler never throws and leaves an
    existing window focused and not minimized. Off Windows the arguments
    are not read: nothing is sent and nothing stored. On Windows, with a
    window, the first argument that starts with [clozerai://] is sent as
    one [ipc-load-session] message with its session id; with no such
    argument nothing is sent. *)
Theorem second_instance_reads_argv_on_windows
    (platform : string) (argv : list string) (s : State) :
  let s' := snd (second_instance platform argv s) in
  fst (second_instance platform argv s) = inr tt /\
  (forall win, mainWindow s = Some win ->
     exists win', mainWindow s' = Some win' /\
                  minimized win' = false /\ focused win' = true) /\
  (isWindows platform = false ->
     sent s' = sent s /\ initialProtocolUrl s' = initialProtocolUrl s) /\
  (isWindows platform = true -> protocolArg_of argv = None ->
     sent s' = sent s /\ initialProtocolUrl s' = initialProtocolUrl s) /\
  (isWindows platform = true ->
     forall win before after rest,
       mainWindow s = Some win ->
       argv = before ++ (protocol_prefix ++ rest)%string :: after ->
       Forall (fun a => startsWith a protocol_prefix = false) before ->
       sent s' =
         sent s ++ [("ipc-load-session", [strip_trailing_slash rest])]).
Proof.
  intros s'. subst s'. rewrite second_instance_run. cbv zeta.
  split; [reflexivity|]. cbn [snd].
  assert (Hfocus : forall win : BrowserWindow,
             minimized (restore_and_focus win) = false /\
             focused (restore_and_focus win) = true).
  { intros win. unfold restore_and_focus. cbn.
    destruct (minimized win); auto. }
  split; [|split; [|split]].
  - intros win Hwin.
    destruct (isWindows platform);
      [destruct (protocolArg_of argv) as [arg|];
       [destruct (truthy arg);
        [rewrite handleProtocolUrl_run; cbn [snd];
         destruct (negb (startsWith arg protocol_prefix)); cbv zeta|]|]|];
      rewrite ?Hwin; cbn [mainWindow]; rewrite ?Hwin;
      eexists; (split; [reflexivity|apply Hfocus]).
  - intros ->. destruct (mainWindow s); split; reflexivity.
  - intros -> ->. destruct (mainWindow s); split; reflexivity.
  - intros -> win before after rest Hwin -> Hbefore.
    rewrite (protocolArg_of_first before after (protocol_prefix ++ rest));
      [|exact Hbefore|apply prefix_app].
    assert (truthy (protocol_prefix ++ rest) = true) as -> by reflexivity.
    rewrite handleProtocolUrl_run. cbn [snd].
    assert (startsWith (protocol_prefix ++ rest) protocol_prefix = true)
      as -> by apply prefix_app.
    cbn [negb]. cbv zeta. rewrite Hwin. cbn [mainWindow sent].
    rewrite sessionId_of_prefixed. reflexivity.
Qed.

(** X6. The global shortcuts: macOS and Windows register the same seven
    channels in the same order, under the same keys, with [Command] as
    the modifier on macOS and [Ctrl] on Windows; no channel is registered
    twice; any other platform registers none. A shortcut sends its channel
    with no argument when the window exists and does nothing otherwise. *)
Theorem shortcuts_same_on_mac_and_windows (platform channel : string)
    (s : State) :
  map snd (shortcuts "darwin") = map snd (shortcuts "win32") /\
  map (fun a => key_of (fst a)) (shortcuts "darwin") =
    map (fun a => key_of (fst a)) (shortcuts "win32") /\
  forallb (fun a => prefix "Command+" (fst a)) (shortcuts "darwin") = true /\
  forallb (fun a => prefix "Ctrl+" (fst a)) (shortcuts "win32") = true /\
  List.length (shortcuts "darwin") = 7 /\
  NoDup (map snd (shortcuts "darwin")) /\
  (String.eqb platform "darwin" = false -> isWindows platform = false ->
   shortcuts platform = []) /\
  sent (snd (shortcut_pressed channel s)) =
    match mainWindow s with
    | Some _ => sent s ++ [(channel, [])]
    | None => sent s
    end.
Proof.
  split; [reflexivity|]. split; [reflexivity|]. split; [reflexivity|].
  split; [reflexivity|]. split; [reflexivity|]. split; [|split].
  - simpl. repeat constructor; simpl; intuition discriminate.
  - intros Hmac Hwin. unfold shortcuts. rewrite Hmac, Hwin. reflexivity.
  - unfold shortcut_pressed, bind, get, ret, send, modify. cbn [fst snd].
    destruct (mainWindow s); reflexivity.
Qed.

End ShellFacts.

(** ** The retained window and its images *)

Section WindowFacts.

Lemma map_mapi_from {X Y Z} (g : Y -> Z) (g0 : X -> Z) (f : X -> nat -> Y)
    (i : nat) (l : list X) :
  (forall x k, g (f x k) = g0 x) ->
  map g (mapi_from f i l) = map g0 l.
Proof.
  intros H. revert i. induction l as [|x l IH]; intros i; simpl;
    [|rewrite H, IH]; reflexivity.
Qed.

(** When only the last element can satisfy [p], at most one does. *)
Lemma filter_only_last {X} (p : X -> bool) (l : list X) :
  (forall i x, nth_error l i = Some x -> p x = true ->
               i = List.length l - 1) ->
  List.length (filter p l) <= 1.
Proof.
  induction l as [|x l IH]; intros H; [simpl; lia|].
  destruct l as [|y l].
  - simpl. destruct (p x); simpl; lia.
  - assert (Hx : p x = false).
    { destruct (p x) eqn:E; [|reflexivity].
      specialize (H 0 x eq_refl E). simpl in H. lia. }
    cbn [filter]. rewrite Hx. apply IH. intros i z Hi Hz.
    specialize (H (S i) z Hi Hz). simpl in *. lia.
Qed.

Lemma newMessages_image_is_last (ms : list Message) (i : nat) (m : Message) :
  nth_error (newMessages ms) i = Some m ->
  is_user (role m) && has_image m = true ->
  i = List.length (newMessages ms) - 1.
Proof.
  intros Hm Himg. rewrite nth_error_newMessages in Hm.
  assert (Hlen : List.length (newMessages ms) =
                 List.length (slice_last 10 ms)).
  { unfold newMessages. cbv zeta. apply length_mapi_from. }
  rewrite Hlen.
  destruct (nth_error ms (List.length ms - 10 + i)) as [m0|];
    [|discriminate].
  simpl in Hm.
  destruct (is_user (role m0) && has_image m0
            && negb (i =? List.length (slice_last 10 ms) - 1)) eqn:E;
    inversion Hm; subst m.
  - rewrite has_image_without_image, andb_false_r in Himg. discriminate.
  - rewrite Himg in E. simpl in E.
    apply negb_false_iff, Nat.eqb_eq in E. exact E.
Qed.

(** X7. For a history of any length, the window
    [prepareMessagesForNewMessage] keeps has as many turns as the history,
    up to 10; its turns have the roles and contents of the last turns of
    the history, in order; and building the window of a window changes
    nothing. *)
Theorem newMessages_window_idempotent (ms : list Message) :
  List.length (newMessages ms) = Nat.min 10 (List.length ms) /\
  map role (newMessages ms) = map role (slice_last 10 ms) /\
  map content (newMessages ms) = map content (slice_last 10 ms) /\
  (List.length ms <= 10 ->
   map content (newMessages ms) = map content ms) /\
  newMessages (newMessages ms) = newMessages ms.
Proof.
  assert (Hlen : List.length (newMessages ms) = Nat.min 10 (List.length ms)).
  { unfold newMessages. cbv zeta.
    rewrite length_mapi_from. apply length_slice_last. }
  assert (Hrole : forall arr m k, role (strip_older_image arr m k) = role m).
  { intros arr m k. unfold strip_older_image. cbv zeta.
    destruct (_ && _); reflexivity. }
  assert (Hcontent : forall arr m k,
             content (strip_older_image arr m k) = content m).
  { intros arr m k. unfold strip_older_image. cbv zeta.
    destruct (_ && _); reflexivity. }
  split; [exact Hlen|].
  split; [apply map_mapi_from, Hrole|].
  split; [apply map_mapi_from, Hcontent|]. split.
  - intros Hshort. unfold newMessages. cbv zeta.
    rewrite (map_mapi_from content content) by apply Hcontent.
    unfold slice_last. replace (List.length ms - 10) with 0 by lia.
    reflexivity.
  - apply nth_error_ext. intros k.
    rewrite (nth_error_newMessages (newMessages ms)).
    assert (Hwin : List.length (slice_last 10 (newMessages ms)) =
                   List.length (slice_last 10 ms)).
    { rewrite !length_slice_last, Hlen. lia. }
    rewrite Hwin.
    replace (List.length (newMessages ms) - 10 + k) with k by lia.
    rewrite nth_error_newMessages.
    destruct (nth_error ms (List.length ms - 10 + k)) as [m|];
      [|reflexivity].
    simpl. f_equal.
    destruct (is_user (role m) && has_image m
              && negb (k =? List.length (slice_last 10 ms) - 1)) eqn:E.
    + rewrite has_image_without_image, andb_false_r. reflexivity.
    + rewrite E. reflexivity.
Qed.

End WindowFacts.

Section TriggerFacts.
Context {B : Type} {buffer : CombinedTranscript B}.

Lemma images_snoc (ms : list Message) (m : Message) :
  images (ms ++ [m]) =
  images ms + (if is_user (role m) && has_image m then 1 else 0).
Proof.
  unfold images. rewrite filter_app, length_app. simpl.
  destruct (is_user (role m) && has_image m); reflexivity.
Qed.

(** X8. Images in the history: the window
    [prepareMessagesForNewMessage] keeps has at most one user turn with an
    image, for a history of any length; so has the history after
    [handleGenerateResponse]; after
    [handleGenerateResponseWithScreenshot], when the capture and the
    resize resolve the history has at most two, and when the capture or
    the resize fails the history is the one before, with as many as
    before. *)
Theorem at_most_two_images_after_a_trigger
    (t : Task) (capture : JsError + string)
    (resize : string -> JsError + string) (s : State B) :
  let shot := snd (handleGenerateResponseWithScreenshot capture resize s) in
  let failed :=
    match capture with
    | inl _ => true
    | inr dataUrl => match resize dataUrl with inl _ => true | inr _ => false end
    end in
  images (newMessages (messages s)) <= 1 /\
  images (messages (snd (handleGenerateResponse t s))) <= 1 /\
  if failed then
    messages shot = messages s /\
    images (messages shot) = images (messages s)
  else images (messages shot) <= 2.
Proof.
  intros shot failed.
  assert (Hwin : images (newMessages (messages s)) <= 1).
  { unfold images. apply filter_only_last. intros i x Hx Hp.
    eapply newMessages_image_is_last; eassumption. }
  split; [exact Hwin|]. split.
  - rewrite handleGenerateResponse_run. cbv zeta. cbn [snd messages].
    rewrite images_snoc. cbn. lia.
  - subst shot failed.
    rewrite handleGenerateResponseWithScreenshot_run. cbv zeta.
    destruct capture as [e|u]; [|destruct (resize u) as [e|r]];
      cbn [snd messages]; try (split; reflexivity).
    rewrite images_snoc. destruct (is_user _ && has_image _); lia.
Qed.

(** X9. [handleClearAllAnswers] never throws, stops the stream in
    flight and empties the history, and leaves the combined transcript and
    the input box as they are; [handleGenerateResponse] right after it
    leaves a history of exactly one turn, with the content it would have
    had without the clearing. *)
Theorem clear_then_generate_single_turn (t : Task) (s : State B) :
  let cleared := snd (handleClearAllAnswers s) in
  fst (handleClearAllAnswers s) = inr tt /\
  messages cleared = [] /\ streaming cleared = false /\
  combinedTranscript cleared = combinedTranscript s /\
  chatInput cleared = chatInput s /\
  exists turn,
    messages (snd (handleGenerateResponse t cleared)) = [turn] /\
    messages (snd (handleGenerateResponse t s)) =
      newMessages (messages s) ++ [turn].
Proof.
  intros cleared.
  assert (Hc : cleared =
               with_messages [] (with_streaming false
                 (with_calls (calls s ++ [ChatStop]) s)))
    by reflexivity.
  split; [reflexivity|]. rewrite Hc.
  split; [reflexivity|]. split; [reflexivity|]. split; [reflexivity|].
  split; [reflexivity|].
  rewrite !handleGenerateResponse_run. cbv zeta. cbn [snd messages].
  eexists. split; reflexivity.
Qed.

End TriggerFacts.

(** ** Renewal, chat activity and persistence over a run *)

Section RunFacts.
Context {B : Type} {buffer : CombinedTranscript B}.
Variable generate : nat -> JsError + CallSession.t.

Lemma switch_calls_no_SaveAiAnswer (s : State B) (k : option string)
    (l : string) :
  filter is_SaveAiAnswer (switch_calls s k l) = [].
Proof.
  unfold switch_calls.
  destruct (audioTapStatus s), (isRecordingMicrophone s); reflexivity.
Qed.

Lemma commit_saves_nothing (r : State B) :
  filter is_SaveAiAnswer (calls (snd (commit generate r))) =
  filter is_SaveAiAnswer (calls r).
Proof.
  rewrite commit_run. cbn [snd].
  destruct (renewal_due r); [|destruct (reset_due r); reflexivity].
  destruct (callSession r) as [cs|]; [|reflexivity].
  rewrite handleSessionExtended_run. cbv zeta.
  destruct (truthy_opt (CallSession.speechmaticsApiKey cs));
    [|destruct (generate _)];
    cbn [snd calls with_hasAutoExtended];
    rewrite filter_app; cbn [filter is_SaveAiAnswer];
    rewrite ?switch_calls_no_SaveAiAnswer; apply app_nil_r.
Qed.

Lemma apply_input_saves_nothing (i : Input) (s : State B) :
  saving (snd (apply_input i s)) = false ->
  filter is_SaveAiAnswer (calls (snd (apply_input i s))) =
  filter is_SaveAiAnswer (calls s).
Proof.
  destruct i as [d|cs|b|txt|t|capture resize]; simpl; try reflexivity.
  - rewrite handleGenerateResponse_run. cbv zeta. unfold saving, saved_calls.
    cbn [snd callSession calls]. intros Hoff.
    rewrite !filter_app.
    destruct (callSession s) as [cs|]; [rewrite Hoff|];
      destruct t; simpl; rewrite ?app_nil_r; reflexivity.
  - rewrite handleGenerateResponseWithScreenshot_run. cbv zeta.
    unfold saving, saved_calls.
    destruct capture as [e|u]; [|destruct (resize u)];
      cbn [snd callSession calls]; intros Hoff;
      rewrite !filter_app; simpl; rewrite ?app_nil_r; try reflexivity.
    destruct (callSession s) as [cs|]; [rewrite Hoff|];
      simpl; rewrite ?app_nil_r; reflexivity.
Qed.

(** X10. Nothing is persisted for a session that does not ask for it:
    over any run of inputs in which every render sees no session, or a
    session with an empty id or with [saveTranscription] off, no
    [saveAiAnswer] call is added, neither by the chat triggers nor by a
    renewal; and on such a state [onFinish] saves nothing either. A user
    turn is saved by [appendAndSave] only and an assistant message by
    [onFinish] only: [onFinish] does nothing for a message that is not
    from the assistant. *)
Theorem nothing_saved_without_saveTranscription
    (ins : list Input) (s : State B)
    (Hoff : Forall (fun r => saving r = false) (renders generate ins s)) :
  filter is_SaveAiAnswer (calls (run generate ins s)) =
    filter is_SaveAiAnswer (calls s) /\
  (forall (m : Message) (s0 : State B),
     saving s0 = false -> onFinish m s0 = (inr tt, s0)) /\
  (forall (m : Message) (s0 : State B),
     role m <> assistant -> onFinish m s0 = (inr tt, s0)) /\
  (forall (m : Message) (s0 : State B),
     role m = assistant -> saving s0 = true ->
     exists id, callSession s0 = Some id /\
       calls (snd (onFinish m s0)) =
         calls s0 ++ [SaveAiAnswer (CallSession.id id) (content m)
                                   assistant]).
Proof.
  split; [|split; [|split]].
  - revert s Hoff. induction ins as [|i ins IH]; intros s Hoff;
      [reflexivity|].
    simpl in *. inversion Hoff as [|r rs Hr Hrs]; subst.
    rewrite IH by exact Hrs.
    rewrite step_run, commit_saves_nothing.
    apply apply_input_saves_nothing, Hr.
  - intros m s0 Hs0. unfold onFinish, saving, bind, get, ret in *.
    destruct (role m); try reflexivity.
    destruct (callSession s0); [rewrite Hs0|]; reflexivity.
  - intros m s0 Hrole. unfold onFinish, bind, get, ret.
    destruct (role m); try reflexivity. congruence.
  - intros m s0 Hrole Hs0. unfold onFinish, saving, bind, get, ret, call,
      modify in *. rewrite Hrole.
    destruct (callSession s0) as [cs|]; [|discriminate].
    rewrite Hs0. exists cs. split; reflexivity.
Qed.

(** X11. The two hints of the session timer exclude each other: in no
    state do [willAutoExtend] and [canAutoExtend] both hold; and both are
    off when the session reports exactly 360000 ms left, no time left, or
    for a trial session. *)
Theorem willAutoExtend_excludes_canAutoExtend (s : State B) :
  willAutoExtend s && canAutoExtend s = false /\
  (forall cs, callSession s = Some cs ->
     CallSession.timeLeft cs = Some 360000%Z \/
     CallSession.timeLeft cs = Some 0%Z \/
     CallSession.timeLeft cs = None \/
     CallSession.trial cs = true ->
     willAutoExtend s = false /\ canAutoExtend s = false).
Proof.
  unfold willAutoExtend, canAutoExtend, num_below, num_above. split.
  - destruct (callSession s) as [cs|]; [|reflexivity].
    destruct (CallSession.timeLeft cs) as [z|]; [|reflexivity].
    destruct (z <? 360000)%Z eqn:Hlt; destruct (z >? 360000)%Z eqn:Hgt;
      rewrite ?andb_false_r, ?andb_false_l, ?andb_false_r; try reflexivity.
    apply Z.ltb_lt in Hlt. apply Z.gtb_lt in Hgt. lia.
  - intros cs -> [->|[->|[->|Htrial]]]; try (split; reflexivity).
    rewrite Htrial. cbn [negb]. rewrite !andb_false_r. split; reflexivity.
Qed.

Lemma commit_without_activity (r : State B) :
  hasChatActivitySinceLastExtension r = false ->
  calls (snd (commit generate r)) = calls r /\
  hasChatActivitySinceLastExtension (snd (commit generate r)) = false.
Proof.
  intros Hidle. rewrite commit_run. cbn [snd].
  assert (Hdue : renewal_due r = false).
  { unfold renewal_due, willAutoExtend. rewrite Hidle.
    destruct (callSession r); rewrite ?andb_false_r; reflexivity. }
  rewrite Hdue. destruct (reset_due r); auto.
Qed.

Lemma stop_calls_in_pairs (ins : list (Input * bool)) (s : State B) :
  exists k,
    stop_calls generate ins s =
      List.concat (repeat handleStopAllRecording k) /\
    k <= List.length
           (filter sessionExpired (renders generate (map fst ins) s)).
Proof.
  revert s. induction ins as [|[i runs] ins IH]; intros s.
  - exists 0. split; [reflexivity|simpl; lia].
  - destruct (IH (step generate i s)) as (k & Hk & Hle).
    cbn [stop_calls map fst renders filter]. rewrite Hk.
    unfold expiredEffect.
    destruct runs;
      destruct (sessionExpired (snd (apply_input i s)));
      [exists (S k)|exists k|exists k|exists k];
      (split; [reflexivity|cbn [List.length]; lia]).
Qed.

(** X12. A session with no chat activity since its last renewal is not
    renewed: from a state whose chat-activity flag is off, over any run of
    timer ticks, refetches of the session, changes of the pending flag and
    of the input box (no chat trigger), the hook writes no query cache,
    activates nothing, switches no credential and makes no chat or save
    call, whatever the time left becomes, and the flag stays off. The
    only calls it makes are those of the expiry effect: the stops of both
    adapters, in pairs, at most one pair for each render that sees the
    session expired, and none when no render does. *)
Theorem idle_session_is_never_renewed
    (ins : list (Input * bool)) (s : State B)
    (Hidle : hasChatActivitySinceLastExtension s = false)
    (Hquiet : forallb (fun i => negb (is_trigger (fst i))) ins = true) :
  let final := run generate (map fst ins) s in
  let seen := renders generate (map fst ins) s in
  calls final = calls s /\
  renewals final = renewals s /\
  hasChatActivitySinceLastExtension final = false /\
  (exists k,
     stop_calls generate ins s =
       List.concat (repeat [StopAudioTapRecording; StopMicrophoneRecording] k)
     /\ k <= List.length (filter sessionExpired seen)) /\
  (Forall (fun r => sessionExpired r = false) seen ->
   stop_calls generate ins s = []).
Proof.
  intros final seen.
  assert (H : calls final = calls s /\
              hasChatActivitySinceLastExtension final = false).
  { subst final. clear seen. revert s Hidle Hquiet.
    induction ins as [|[i runs] ins IH]; intros s Hidle Hquiet; [auto|].
    simpl in *. apply andb_true_iff in Hquiet. destruct Hquiet as [Hi Hins].
    assert (Hin : calls (snd (apply_input i s)) = calls s /\
                  hasChatActivitySinceLastExtension (snd (apply_input i s))
                  = false)
      by (destruct i; try discriminate; simpl; auto).
    destruct Hin as [Hcalls Hflag].
    destruct (commit_without_activity _ Hflag) as [Hcalls' Hflag'].
    rewrite <- step_run in Hcalls', Hflag'.
    destruct (IH (step generate i s) Hflag' Hins) as [Hrun Hrunflag].
    split; [congruence|exact Hrunflag]. }
  destruct H as [Hcalls Hflag]. split; [exact Hcalls|].
  split; [unfold renewals; rewrite Hcalls; reflexivity|].
  split; [exact Hflag|].
  pose proof (stop_calls_in_pairs ins s) as (k & Hk & Hle). fold seen in Hle.
  split; [exists k; split; [exact Hk|exact Hle]|].
  intros Hnone.
  assert (Hfilter : filter sessionExpired seen = []).
  { clear - Hnone. induction Hnone as [|r l Hr _ IH]; [reflexivity|].
    simpl. rewrite Hr. exact IH. }
  rewrite Hfilter in Hle. simpl in Hle.
  assert (k = 0) by lia. subst k. exact Hk.
Qed.

Lemma commit_spends_activity (r : State B) :
  (forall n, exists cs, generate n = inr cs) ->
  renewals (snd (commit generate r)) + activity (snd (commit generate r)) =
  renewals r + activity r.
Proof.
  intros Hresolves. destruct (commit_counts generate r) as [Hn _].
  rewrite Hn. rewrite commit_run. cbn [snd]. unfold activity.
  destruct (renewal_due r) eqn:Hdue;
    [|destruct (reset_due r); cbn; lia].
  assert (Hwill : willAutoExtend r = true).
  { unfold renewal_due in Hdue. apply andb_true_iff in Hdue.
    destruct Hdue as [Hdue _]. apply andb_true_iff in Hdue. tauto. }
  unfold willAutoExtend in Hwill.
  destruct (callSession r) as [cs|]; [|discriminate].
  apply andb_true_iff in Hwill. destruct Hwill as [_ Hact].
  rewrite Hact. rewrite handleSessionExtended_run. cbv zeta.
  destruct (truthy_opt (CallSession.speechmaticsApiKey cs));
    [cbn; lia|].
  match goal with
  | |- context [generate ?n] => destruct (Hresolves n) as [a ->]
  end.
  cbn. lia.
Qed.

Lemma apply_input_earns_activity (i : Input) (s : State B) :
  activity (snd (apply_input i s)) <=
  activity s + (if is_trigger i then 1 else 0).
Proof.
  unfold activity.
  destruct i as [d|cs|b|txt|t|capture resize]; simpl;
    try (destruct (hasChatActivitySinceLastExtension s); lia).
  - rewrite handleGenerateResponse_run. cbn.
    destruct (hasChatActivitySinceLastExtension s); lia.
  - rewrite handleGenerateResponseWithScreenshot_run. cbv zeta.
    destruct capture as [e|u]; [|destruct (resize u)]; cbn;
      destruct (hasChatActivitySinceLastExtension s); lia.
Qed.

(** X13. Renewals are paid for by chat activity: when the activation
    never rejects, over any run of inputs the number of renewals attempted
    is at most the number of chat triggers in the run, plus one if the
    chat-activity flag was set at the start. *)
Theorem renewals_bounded_by_chat_triggers (ins : list Input) (s : State B)
    (Hresolves : forall n, exists cs, generate n = inr cs) :
  renewals (run generate ins s) + activity (run generate ins s) <=
  renewals s + activity s + List.length (filter is_trigger ins).
Proof.
  revert s. induction ins as [|i ins IH]; intros s; [simpl; lia|].
  cbn [run filter]. specialize (IH (step generate i s)).
  rewrite step_run in IH at 3 4.
  rewrite (commit_spends_activity _ Hresolves) in IH.
  destruct (apply_input_counts i s) as [Hn _].
  pose proof (apply_input_earns_activity i s) as Hact.
  rewrite Hn in IH.
  destruct (is_trigger i); cbn [List.length]; lia.
Qed.

End RunFacts.

(** ** Starting the adapters *)

Section StartFacts.
Context {B : Type} {buffer : CombinedTranscript B}.
Variable generate : nat -> JsError + CallSession.t.

Lemma credential_for_run (cs : CallSession.t) (c : Controls B) :
  credential_for generate cs c =
  if truthy_opt (CallSession.speechmaticsApiKey cs) then
    (inr (CallSession.speechmaticsApiKey cs), c)
  else
    let n := List.length (filter is_GenerateSpeechmaticsSession
                            (calls (hook c))) in
    let c1 :=
      {| hook := with_calls (calls (hook c) ++ [GenerateSpeechmaticsSession])
                   (hook c);
         startingMicrophoneTranscription := startingMicrophoneTranscription c;
         adapter_calls := adapter_calls c |} in
    match generate n with
    | inl e => (inl e, c1)
    | inr activated => (inr (CallSession.speechmaticsApiKey activated), c1)
    end.
Proof.
  unfold credential_for.
  destruct (truthy_opt (CallSession.speechmaticsApiKey cs)); [reflexivity|].
  cbn [negb]. cbv zeta.
  unfold bind, lift, generateSpeechmaticsSession, await, call, bind, get,
    modify, ret, throw.
  cbn [fst snd hook].
  destruct (generate _); reflexivity.
Qed.

(** X14. [handleStartAudioTapTranscription] never throws. With no
    session it does nothing. With a session it takes the credential of the
    session when that is truthy and otherwise activates the session first;
    it calls [startAudioTapTranscription] once, with that credential and
    the language of the session, unless the activation rejected, and then
    not at all; a rejection of the activation or of the start is logged
    with [console.error] and goes no further. *)
Theorem audio_tap_start_swallows_errors
    (started : JsError + unit) (c : Controls B) :
  let c' := snd (handleStartAudioTapTranscription generate started c) in
  let n := List.length (filter is_GenerateSpeechmaticsSession
                          (calls (hook c))) in
  fst (handleStartAudioTapTranscription generate started c) = inr tt /\
  startingMicrophoneTranscription c' = startingMicrophoneTranscription c /\
  match callSession (hook c) with
  | None => c' = c
  | Some cs =>
      let logged (e : JsError) :=
        ConsoleError "Audio tap transcription error:" e in
      let after_start :=
        match started with inl e => [logged e] | inr _ => [] end in
      if truthy_opt (CallSession.speechmaticsApiKey cs) then
        adapter_calls c' =
          adapter_calls c ++
          [StartAudioTapTranscription (CallSession.speechmaticsApiKey cs)
             (CallSession.language cs)] /\
        calls (hook c') = calls (hook c) ++ after_start
      else
        match generate n with
        | inl e =>
            adapter_calls c' = adapter_calls c /\
            calls (hook c') =
              calls (hook c) ++ [GenerateSpeechmaticsSession; logged e]
        | inr activated =>
            adapter_calls c' =
              adapter_calls c ++
              [StartAudioTapTranscription
                 (CallSession.speechmaticsApiKey activated)
                 (CallSession.language cs)] /\
            calls (hook c') =
              calls (hook c) ++ GenerateSpeechmaticsSession :: after_start
        end
  end.
Proof.
  intros c' n. subst c'.
  unfold handleStartAudioTapTranscription, bind, get. cbv beta iota.
  destruct (callSession (hook c)) as [cs|] eqn:Hcs;
    [|repeat split; reflexivity].
  unfold try_catch. rewrite credential_for_run.
  destruct (truthy_opt (CallSession.speechmaticsApiKey cs)).
  - unfold await_adapter, bind, modify, throw, ret, lift, call, modify.
    destruct started as [e|[]]; cbn; repeat split;
      rewrite <- ?app_assoc, ?app_nil_r; reflexivity.
  - cbv zeta. fold n. destruct (generate n) as [e|activated].
    + unfold lift, call, modify. cbn. repeat split.
      rewrite <- app_assoc. reflexivity.
    + unfold await_adapter, bind, modify, throw, ret, lift, call, modify.
      destruct started as [e|[]]; cbn; repeat split;
        rewrite <- ?app_assoc, ?app_nil_r; reflexivity.
Qed.

(** X15. [handleStartMicrophoneTranscription] with no session does
    nothing. With a session, the starting flag is off when the handler
    ends, whether it returns or throws; it chooses the credential as the
    audio-tap handler does and calls [startMicrophoneTranscription] once
    unless the activation rejected; unlike the audio-tap handler it logs
    nothing and throws the rejection of the activation or of the start to
    its caller. *)
Theorem microphone_start_resets_flag_and_rethrows
    (started : JsError + unit) (c : Controls B) :
  let r := fst (handleStartMicrophoneTranscription generate started c) in
  let c' := snd (handleStartMicrophoneTranscription generate started c) in
  let n := List.length (filter is_GenerateSpeechmaticsSession
                          (calls (hook c))) in
  match callSession (hook c) with
  | None => r = inr tt /\ c' = c
  | Some cs =>
      let outcome :=
        match started with inl e => inl e | inr _ => inr tt end in
      startingMicrophoneTranscription c' = false /\
      if truthy_opt (CallSession.speechmaticsApiKey cs) then
        r = outcome /\
        adapter_calls c' =
          adapter_calls c ++
          [StartMicrophoneTranscription (CallSession.speechmaticsApiKey cs)
             (CallSession.language cs)] /\
        calls (hook c') = calls (hook c)
      else
        match generate n with
        | inl e =>
            r = inl e /\ adapter_calls c' = adapter_calls c /\
            calls (hook c') = calls (hook c) ++ [GenerateSpeechmaticsSession]
        | inr activated =>
            r = outcome /\
            adapter_calls c' =
              adapter_calls c ++
              [StartMicrophoneTranscription
                 (CallSession.speechmaticsApiKey activated)
                 (CallSession.language cs)] /\
            calls (hook c') = calls (hook c) ++ [GenerateSpeechmaticsSession]
        end
  end.
Proof.
  intros r c' n. subst r c'.
  unfold handleStartMicrophoneTranscription, bind, get. cbv beta iota.
  destruct (callSession (hook c)) as [cs|] eqn:Hcs;
    [|split; reflexivity].
  unfold setStartingMicrophoneTranscription, modify, try_finally.
  cbv beta iota. rewrite credential_for_run.
  cbn [hook startingMicrophoneTranscription adapter_calls].
  destruct (truthy_opt (CallSession.speechmaticsApiKey cs)).
  - unfold await_adapter, bind, modify, throw, ret,
      setStartingMicrophoneTranscription, modify.
    destruct started as [e|[]]; cbn; repeat split; reflexivity.
  - cbv zeta. fold n. destruct (generate n) as [e|activated].
    + unfold setStartingMicrophoneTranscription, modify. cbn.
      repeat split; reflexivity.
    + unfold await_adapter, bind, modify, throw, ret,
        setStartingMicrophoneTranscription, modify.
      destruct started as [e|[]]; cbn; repeat split; reflexivity.
Qed.

End StartFacts.

(** ** The session query *)

Section QueryFacts.
Variable Num : Type.
Variable num_truthy : Num -> bool.
Variable num_to_string : Num -> string.


End QueryFacts.

(** ** Content protection over a run of window events *)

Section ProtectionFacts.
Import Shell.

Lemma handleProtocolUrl_keeps (url : string) (s : State) :
  protected s -> stored_url_valid s ->
  protected (snd (handleProtocolUrl url s)) /\
  stored_url_valid (snd (handleProtocolUrl url s)).
Proof.
  intros Hp Hu. rewrite handleProtocolUrl_run. cbn [snd].
  unfold protected, stored_url_valid in *.
  destruct (startsWith url protocol_prefix) eqn:Hstart; cbn [negb];
    cbv zeta; [|auto].
  destruct (mainWindow s) as [win|];
    cbn [mainWindow initialProtocolUrl restore_and_focus contentProtection];
    auto.
Qed.

Lemma shell_step_keeps (platform : string) (ev : ShellEvent) (s : State) :
  turns_protection_off ev = false ->
  protected s -> stored_url_valid s ->
  protected (snd (shell_step platform ev s)) /\
  stored_url_valid (snd (shell_step platform ev s)).
Proof.
  intros Hev Hp Hu.
  destruct ev as [url|argv| | | |channel|disabled]; cbn [shell_step].
  - apply handleProtocolUrl_keeps; assumption.
  - rewrite second_instance_run. cbv zeta. cbn [snd].
    set (s1 := if isWindows platform then _ else _).
    assert (H1 : protected s1 /\ stored_url_valid s1).
    { subst s1. destruct (isWindows platform); [|auto].
      destruct (protocolArg_of argv) as [a|]; [|auto].
      destruct (truthy a); [|auto].
      apply handleProtocolUrl_keeps; assumption. }
    clearbody s1. destruct H1 as [H1 H2].
    unfold protected, stored_url_valid in *.
    destruct (mainWindow s1) as [win|] eqn:Hwin;
      cbn [mainWindow initialProtocolUrl restore_and_focus
           contentProtection]; rewrite ?Hwin; auto.
  - unfold protected, stored_url_valid in *. cbn. auto.
  - rewrite ready_to_show_run. unfold protected, stored_url_valid in *.
    destruct (mainWindow s) as [win|] eqn:Hwin;
      [|cbn [snd]; rewrite Hwin; auto].
    cbv zeta. destruct (initialProtocolUrl s) as [url|]; [|cbn; auto].
    destruct (truthy url); [|cbn; auto].
    cbn [snd mainWindow initialProtocolUrl].
    rewrite handleProtocolUrl_run, Hu. cbn. auto.
  - unfold protected, stored_url_valid in *. cbn. auto.
  - unfold shortcut_pressed, bind, get, ret, send, modify.
    cbn [fst snd]. unfold protected, stored_url_valid in *.
    destruct (mainWindow s) eqn:Hwin; cbn [snd mainWindow initialProtocolUrl];
      rewrite ?Hwin; auto.
  - simpl in Hev. subst disabled.
    unfold toggle_content_protection, bind, get, ret, set_mainWindow, log,
      modify.
    cbn [fst snd]. unfold protected, stored_url_valid in *.
    destruct (mainWindow s) eqn:Hwin; cbn; rewrite ?Hwin; auto.
Qed.

(** X17. Content protection stays on: over any run of window events
    (protocol URLs, second instances, window creation, [ready-to-show],
    [closed], shortcuts, and toggles that do not disable it) from the
    start of the process, whenever a window exists its content protection
    is on, and a stored protocol URL always starts with [clozerai://];
    only [ipc-toggle-content-protection] with [disabled] set turns it
    off, and then a toggle with [disabled] unset turns it on again. *)
Theorem content_protection_stays_on
    (platform : string) (evs : list ShellEvent)
    (Hevs : forallb (fun ev => negb (turns_protection_off ev)) evs = true) :
  let s := shell_run platform evs start_state in
  protected s /\ stored_url_valid s /\
  (forall win, mainWindow s = Some win ->
     exists off on,
       mainWindow (snd (toggle_content_protection true s)) = Some off /\
       contentProtection off = false /\
       mainWindow (snd (toggle_content_protection false
                          (snd (toggle_content_protection true s))))
         = Some on /\
       contentProtection on = true).
Proof.
  intros s.
  assert (H : protected s /\ stored_url_valid s).
  { subst s. generalize start_state,
      (I : protected start_state), (I : stored_url_valid start_state).
    induction evs as [|ev evs' IH]; intros s0 Hp Hu; [auto|].
    simpl in Hevs. apply andb_true_iff in Hevs. destruct Hevs as [Hev Hrest].
    apply negb_true_iff in Hev.
    destruct (shell_step_keeps platform ev s0 Hev Hp Hu) as [Hp' Hu'].
    simpl. apply IH; assumption. }
  destruct H as [Hp Hu]. split; [exact Hp|]. split; [exact Hu|].
  intros win Hwin.
  unfold toggle_content_protection, bind, get, ret, set_mainWindow, log,
    modify.
  cbn [fst snd]. rewrite Hwin. cbn.
  do 2 eexists. repeat split.
Qed.

End ProtectionFacts.

(** ** The further facts at sample data *)

(** X4 on the URL [clozerai://abc/], on macOS. *)
Lemma deferred_protocol_url_delivered_once_sample :
  Shell.mainWindow Shell.start_state = None /\
  Shell.sent
    (snd (Shell.ready_to_show
            (snd (Shell.createWindow "darwin"
                    (snd (Shell.handleProtocolUrl "clozerai://abc/"
                            Shell.start_state))))))
  = [("ipc-load-session"%string, ["abc"%string])].
Proof.
  split; [reflexivity|].
  exact (proj1 (proj2 (proj2 (proj2
    (deferred_protocol_url_delivered_once "darwin" "abc/"
       Shell.start_state eq_refl))))).
Defined.

(** X10 with no session loaded: a chat turn and a tick. *)
Lemma nothing_saved_without_saveTranscription_sample :
  Forall (fun r => saving r = false)
         (renders (buffer := buffer_hook " ") sample_generate
            [Generate ai_help; Tick 40001] no_session_state) /\
  filter is_SaveAiAnswer
    (calls (run (buffer := buffer_hook " ") sample_generate
              [Generate ai_help; Tick 40001] no_session_state)) = [].
Proof.
  assert (Hoff : Forall (fun r => saving r = false)
                   (renders (buffer := buffer_hook " ") sample_generate
                      [Generate ai_help; Tick 40001] no_session_state))
    by (repeat constructor).
  split; [exact Hoff|].
  exact (proj1 (nothing_saved_without_saveTranscription
                  (buffer := buffer_hook " ") sample_generate
                  [Generate ai_help; Tick 40001] no_session_state Hoff)).
Defined.

(** X12 on the sample session with the flag off, while the time left
    stays around one minute and the expiry effect runs in every render. *)
Lemma idle_session_is_never_renewed_sample :
  hasChatActivitySinceLastExtension idle_state = false /\
  forallb (fun i => negb (is_trigger (fst i)))
    (map (fun i => (i, true)) hovering_inputs) = true /\
  calls (run (buffer := buffer_hook " ") sample_generate
           (map fst (map (fun i => (i, true)) hovering_inputs)) idle_state)
  = [].
Proof.
  split; [reflexivity|]. split; [reflexivity|].
  exact (proj1 (idle_session_is_never_renewed (buffer := buffer_hook " ")
                  sample_generate (map (fun i => (i, true)) hovering_inputs)
                  idle_state eq_refl eq_refl)).
Defined.

(** X13 on the run with one chat turn: at most two renewals. *)
Lemma renewals_bounded_by_chat_triggers_sample :
  (forall n, exists cs, sample_generate n = inr cs) /\
  renewals (run (buffer := buffer_hook " ") sample_generate
              flapping_inputs sample_state)
  + activity (run (buffer := buffer_hook " ") sample_generate
                flapping_inputs sample_state) <= 2.
Proof.
  assert (Hresolves : forall n, exists cs, sample_generate n = inr cs)
    by (intros n; eexists; reflexivity).
  split; [exact Hresolves|].
  exact (renewals_bounded_by_chat_triggers (buffer := buffer_hook " ")
           sample_generate flapping_inputs sample_state Hresolves).
Defined.

(** X17 on a run that creates the window and re-enables protection. *)
Lemma content_protection_stays_on_sample :
  forallb (fun ev => negb (Shell.turns_protection_off ev))
    [Shell.OpenUrl "clozerai://abc"; Shell.CreateWindow; Shell.ReadyToShow;
     Shell.ToggleContentProtection false; Shell.Shortcut "ipc-toggle-hide"]
  = true /\
  Shell.protected
    (Shell.shell_run "win32"
       [Shell.OpenUrl "clozerai://abc"; Shell.CreateWindow;
        Shell.ReadyToShow; Shell.ToggleContentProtection false;
        Shell.Shortcut "ipc-toggle-hide"] Shell.start_state).
Proof.
  split; [reflexivity|].
  exact (proj1 (content_protection_stays_on "win32"
    [Shell.OpenUrl "clozerai://abc"; Shell.CreateWindow; Shell.ReadyToShow;
     Shell.ToggleContentProtection false; Shell.Shortcut "ipc-toggle-hide"]
    eq_refl)).
Defined.

(** ** Overlapping starts *)

Section OverlapFacts.
Import Main Overlap.

(** An invocation that runs alone does what the handler does when it is
    served to its end. *)
Lemma alone_start (host : Host) (cfg : AudioTapConfig) (w : World) :
  alone host (StartEntry cfg) w =
  (Finished (fst (ipc_start_audio_tap host cfg w)),
   snd (ipc_start_audio_tap host cfg w)).
Proof.
  rewrite ipc_start_audio_tap_run. destruct w as [slot n tr].
  unfold alone, resume, call_start, cleanup_events, emits, with_slot.
  cbn [audioTapInstance starts trace].
  destruct slot as [h|];
    [destruct (cleanup_rejects host h)|];
    destruct (native_impl host) as [impl|]; cbv zeta;
    cbn [audioTapInstance starts trace];
    try destruct (start_rejects host impl n cfg);
    cbn [fst snd audioTapInstance starts trace];
    repeat rewrite <- app_assoc; reflexivity.
Qed.

Lemma alone_stop (host : Host) (w : World) :
  alone host StopEntry w =
  (Finished (fst (ipc_stop_audio_tap host w)),
   snd (ipc_stop_audio_tap host w)).
Proof.
  rewrite ipc_stop_audio_tap_run. destruct w as [slot n tr].
  unfold alone, resume, cleanup_events, emits, with_slot.
  cbn [audioTapInstance starts trace].
  destruct slot as [h|]; [destruct (cleanup_rejects host h)|];
    cbn [fst snd audioTapInstance starts trace];
    repeat rewrite <- app_assoc; reflexivity.
Qed.

Lemma CleanupCalled_0_app (a b : list Event) :
  ~ In (CleanupCalled 0) a -> ~ In (CleanupCalled 0) b ->
  ~ In (CleanupCalled 0) (a ++ b).
Proof. intros Ha Hb Hin. apply in_app_or in Hin. tauto. Qed.

Lemma lost_instance_0_start (host : Host) (cfg : AudioTapConfig) (w : World) :
  lost_instance_0 w -> lost_instance_0 (snd (ipc_start_audio_tap host cfg w)).
Proof.
  intros (Hslot & Hstarts & Hnever). rewrite ipc_start_audio_tap_run.
  unfold lost_instance_0, cleanup_events.
  destruct (audioTapInstance w) as [h|] eqn:Hh;
    [specialize (Hslot h eq_refl); destruct (cleanup_rejects host h)|];
    destruct (native_impl host) as [impl|]; cbv zeta;
    try destruct (start_rejects host impl (starts w) cfg);
    cbn [snd audioTapInstance starts trace];
    (split; [intros h' Hh'; inversion Hh'; subst; lia|split; [lia|]]);
    apply CleanupCalled_0_app; try exact Hnever;
    simpl; intros Hin;
    repeat (destruct Hin as [Hin|Hin]; [inversion Hin; subst; lia|]);
    exact Hin.
Qed.

Lemma lost_instance_0_stop (host : Host) (w : World) :
  lost_instance_0 w -> lost_instance_0 (snd (ipc_stop_audio_tap host w)).
Proof.
  intros (Hslot & Hstarts & Hnever). rewrite ipc_stop_audio_tap_run.
  unfold lost_instance_0, cleanup_events.
  destruct (audioTapInstance w) as [h|] eqn:Hh; cbn [snd];
    [|rewrite Hh; repeat split; [discriminate|exact Hstarts|exact Hnever]].
  specialize (Hslot h eq_refl).
  cbn [audioTapInstance starts trace].
  split; [discriminate|]. split; [exact Hstarts|].
  apply CleanupCalled_0_app; [exact Hnever|].
  destruct (cleanup_rejects host h); simpl; intros Hin;
    repeat (destruct Hin as [Hin|Hin]; [inversion Hin; subst; lia|]);
    exact Hin.
Qed.

Lemma lost_instance_0_serve (host : Host) (rs : list Request) (w : World) :
  lost_instance_0 w -> lost_instance_0 (serve host rs w).
Proof.
  revert w. induction rs as [|r rs IH]; intros w Hw; [exact Hw|].
  simpl. apply IH. destruct r as [cfg|]; simpl.
  - apply lost_instance_0_start, Hw.
  - apply lost_instance_0_stop, Hw.
Qed.

(** C1, where the code departs from it. Two [ipc-start-audio-tap]
    invocations arrive one right after the other on a supported platform
    whose native start resolves: the first has called the native start and
    waits for it when the second runs, so the second finds the slot empty,
    does no cleanup and calls the native start too. When both have
    finished, both returned RECORDING, two instances are live at once, the
    slot holds only the second, and [cleanup()] of the first was not
    called; whatever requests are served afterwards, it never is. *)
Theorem overlapping_starts_leave_two_live_instances
    (host : Host) (impl : Impl) (cfg1 cfg2 : AudioTapConfig)
    (Himpl : native_impl host = Some impl)
    (Hfirst : start_rejects host impl 0 cfg1 = None)
    (Hsecond : start_rejects host impl 1 cfg2 = None) :
  let finished :=
    run_schedule host [0; 1; 0; 1] [StartEntry cfg1; StartEntry cfg2] init in
  let w := snd finished in
  fst finished = [Finished (inr RECORDING); Finished (inr RECORDING)] /\
  trace w = [StartCalled impl cfg1; StartCalled impl cfg2;
             StartSettled impl (inr 0); StartSettled impl (inr 1)] /\
  live (trace w) = [0; 1] /\
  audioTapInstance w = Some 1 /\
  existsb is_cleanup_call (trace w) = false /\
  forall rs : list Request,
    ~ In (CleanupCalled 0) (trace (serve host rs w)) /\
    audioTapInstance (serve host rs w) <> Some 0.
Proof.
  intros finished w.
  assert (Hrun : finished =
            ([Finished (inr RECORDING); Finished (inr RECORDING)],
             {| audioTapInstance := Some 1; starts := 2;
                trace := [StartCalled impl cfg1; StartCalled impl cfg2;
                          StartSettled impl (inr 0);
                          StartSettled impl (inr 1)] |})).
  { subst finished. unfold init.
    cbn [run_schedule resume_nth resume audioTapInstance].
    unfold call_start at 1. rewrite Himpl.
    cbn [run_schedule resume_nth resume starts audioTapInstance trace app].
    unfold call_start at 1. rewrite Himpl.
    cbn [run_schedule resume_nth resume starts audioTapInstance trace app].
    rewrite Hfirst.
    cbn [run_schedule resume_nth resume starts audioTapInstance trace app
         emits with_slot].
    rewrite Hsecond. reflexivity. }
  subst w. rewrite Hrun. cbn [fst snd trace audioTapInstance].
  split; [reflexivity|]. split; [reflexivity|]. split; [reflexivity|].
  split; [reflexivity|]. split; [reflexivity|].
  intros rs.
  assert (Hlost : lost_instance_0
            (serve host rs
               {| audioTapInstance := Some 1; starts := 2;
                  trace := [StartCalled impl cfg1; StartCalled impl cfg2;
                            StartSettled impl (inr 0);
                            StartSettled impl (inr 1)] |})).
  { apply lost_instance_0_serve. unfold lost_instance_0.
    cbn [audioTapInstance starts trace]. split.
    - intros h Hh. inversion Hh. lia.
    - split; [lia|]. simpl. intros Hin.
      repeat (destruct Hin as [Hin|Hin]; [discriminate|]). exact Hin. }
  destruct Hlost as (Hslot & _ & Hnever). split; [exact Hnever|].
  intros H0. specialize (Hslot 0 H0). lia.
Qed.

End OverlapFacts.

(** C1's failing input on a macOS host: two starts with the same
    configuration, one right after the other. *)
Lemma overlapping_starts_on_mac :
  Main.native_impl mac_host = Some Main.Mac /\
  Main.start_rejects mac_host Main.Mac 0 sample_config = None /\
  Main.start_rejects mac_host Main.Mac 1 sample_config = None /\
  Main.live
    (Main.trace
       (snd (Overlap.run_schedule mac_host [0; 1; 0; 1]
               [Overlap.StartEntry sample_config;
                Overlap.StartEntry sample_config] Main.init)))
  = [0; 1].
Proof.
  split; [reflexivity|]. split; [reflexivity|]. split; [reflexivity|].
  exact (proj1 (proj2 (proj2
    (overlapping_starts_leave_two_live_instances mac_host Main.Mac
       sample_config sample_config eq_refl eq_refl eq_refl)))).
Defined.
